(** * slogtripper: an http.RoundTripper that logs through log/slog

    A shallow embedding of [slogtripper.go] and the properties of its
    interception contract.

    Conventions of the embedding.
    - A Go pointer that may be nil ([*http.Request], [*http.Response],
      [*slog.Logger], an [http.RoundTripper] interface value) is an
      [option]; the value under [Some] is the state of the object pointed to.
    - Go's [error] is [option error]; [None] is the nil error.
    - A run-time panic is an explicit result, [Panicked].
    - What a call does besides returning (closing a body, calling the
      delegate, handing a record to a log handler) is written to a list of
      events; the state of the request object after the call is returned
      next to the result, because [RoundTrip] replaces [req.Body] in place.
    - A reader is described by what it will deliver. Readers are objects,
      though, and one sharing matters inside a call: the delegate may return
      a response whose [Body] is the very reader the request's [Body] holds.
      An outcome says so in [same_body], and reading the response body then
      reads the request's body with it.
    - Strings are byte strings (Go's [string]), integers are [Z]. *)

From Stdlib Require Import ZArith String Ascii List Bool Lia.
From stdpp Require Import base option list strings gmap fin_maps.
Import ListNotations.

Local Open Scope string_scope.
Local Open Scope Z_scope.
Local Open Scope list_scope.

#[local] Set Warnings "-register-all".

(** ** Go standard library: net/textproto header keys *)

Module textproto.

Definition byte_between (lo hi : nat) (c : ascii) : bool :=
  (Nat.leb lo (nat_of_ascii c) && Nat.leb (nat_of_ascii c) hi)%bool.

Definition is_lower (c : ascii) : bool := byte_between 97 122 c.
Definition is_upper (c : ascii) : bool := byte_between 65 90 c.
Definition is_digit (c : ascii) : bool := byte_between 48 57 c.

(** The bytes of an RFC 7230 token: letters, digits and
    the punctuation bytes 33 35 36 37 38 39 42 43 45 46 94 95 96 124 126. *)
Definition validHeaderFieldByte (c : ascii) : bool :=
  (is_lower c || is_upper c || is_digit c
   || existsb (Nat.eqb (nat_of_ascii c))
        [33; 35; 36; 37; 38; 39; 42; 43; 45; 46; 94; 95; 96; 124; 126]%nat)%bool.

Definition is_dash (c : ascii) : bool := Nat.eqb (nat_of_ascii c) 45.
Definition is_space (c : ascii) : bool := Nat.eqb (nat_of_ascii c) 32.

(** toLower = 'a' - 'A' *)
Definition toLower : nat := 32.

(** First loop of [canonicalMIMEHeaderKey]: [None] when a byte is neither
    a token byte nor a space (the key is returned as it is), otherwise
    [Some noCanon]. *)
Fixpoint looks_like_key (noCanon : bool) (a : string) : option bool :=
  match a with
  | EmptyString => Some noCanon
  | String c a' =>
      if validHeaderFieldByte c then looks_like_key noCanon a'
      else if is_space c then looks_like_key true a'
      else None
  end.

(** Second loop of [canonicalMIMEHeaderKey]: upper case for the first
    letter and after each dash, lower case elsewhere. *)
Fixpoint canonical_case (upper : bool) (a : string) : string :=
  match a with
  | EmptyString => EmptyString
  | String c a' =>
      let c' :=
        if (upper && is_lower c)%bool
        then ascii_of_nat (nat_of_ascii c - toLower)
        else if (negb upper && is_upper c)%bool
             then ascii_of_nat (nat_of_ascii c + toLower)
             else c in
      String c' (canonical_case (is_dash c') a')
  end.

Definition canonicalMIMEHeaderKey (a : string) : string * bool :=
  match looks_like_key false a with
  | None => (a, false)
  | Some true => (a, true)
  | Some false => (canonical_case true a, true)
  end.

(** The scan of [CanonicalMIMEHeaderKey]: [true] when it reaches a letter
    in the wrong case before any invalid byte, which is when the key is
    handed to [canonicalMIMEHeaderKey]. *)
Fixpoint wrong_case (upper : bool) (s : string) : bool :=
  match s with
  | EmptyString => false
  | String c s' =>
      if negb (validHeaderFieldByte c) then false
      else if (upper && is_lower c)%bool then true
      else if (negb upper && is_upper c)%bool then true
      else wrong_case (is_dash c) s'
  end.

Definition CanonicalMIMEHeaderKey (s : string) : string :=
  if wrong_case true s then fst (canonicalMIMEHeaderKey s) else s.

End textproto.

(** ** Go standard library: io, time, context *)

Definition error := string.

(** An [io.ReadCloser]: the bytes it still has to deliver, and how the
    stream ends once they are delivered: with [io.EOF] ([None]) or with an
    error that every further [Read] returns. *)
Record ReadCloser := mkReadCloser {
  pending : string;
  failure : option error
}.

(** [bytes.Buffer.ReadFrom]: reads until EOF or an error. Returns what
    ended up in the buffer, the error ([io.EOF] is not reported), and the
    reader as it is left behind. *)
Definition ReadFrom (r : ReadCloser) : string * option error * ReadCloser :=
  (pending r, failure r, {| pending := ""; failure := failure r |}).

(** [io.NopCloser(b)] for a [*bytes.Buffer] holding [b]. *)
Definition io_NopCloser (b : string) : ReadCloser :=
  {| pending := b; failure := None |}.

(** [io.ReadAll], as a caller would use it on a body. *)
Definition io_ReadAll (r : ReadCloser) : string * option error :=
  (pending r, failure r).

Definition Time := Z.
Definition Duration := Z.

Definition maxDuration : Z := 2 ^ 63 - 1.
Definition minDuration : Z := - 2 ^ 63.

(** [time.Since(start)] at instant [now]: the difference in nanoseconds,
    saturated to the range of [time.Duration]. *)
Definition time_Since (now start : Time) : Duration :=
  Z.max minDuration (Z.min maxDuration (now - start)).

Inductive Context :=
| Background
| Derived (id : nat).

(** ** Go standard library: log/slog *)

Module slog.

Definition Level := Z.
Definition LevelDebug : Level := -4.
Definition LevelInfo : Level := 0.
Definition LevelWarn : Level := 4.
Definition LevelError : Level := 8.

Inductive Attr :=
| mkAttr (key : string) (value : Value)
with Value :=
| StringValue (s : string)
| Int64Value (n : Z)
| TimeValue (t : Time)
| DurationValue (d : Duration)
| AnyValue (e : error)
| GroupValue (attrs : list Attr).

Definition key_of (a : Attr) : string := let 'mkAttr k _ := a in k.
Definition value_of (a : Attr) : Value := let 'mkAttr _ v := a in v.

Definition String (key value : string) : Attr := mkAttr key (StringValue value).
Definition Int64 (key : string) (value : Z) : Attr := mkAttr key (Int64Value value).
Definition Int (key : string) (value : Z) : Attr := mkAttr key (Int64Value value).
Definition Time (key : string) (t : Time) : Attr := mkAttr key (TimeValue t).
Definition Duration (key : string) (d : Duration) : Attr := mkAttr key (DurationValue d).
(** [slog.Any] at the two types the package uses it with. *)
Definition Any_string (key value : string) : Attr := mkAttr key (StringValue value).
Definition Any_error (key : string) (e : error) : Attr := mkAttr key (AnyValue e).

(** A group without attributes. *)
Definition isEmptyGroup (v : Value) : bool :=
  match v with
  | GroupValue [] => true
  | _ => false
  end.

Definition omit_empty_groups (attrs : list Attr) : list Attr :=
  List.filter (fun a => negb (isEmptyGroup (value_of a))) attrs.

(** [slog.Group]: the value is built by [slog.GroupValue], which removes the
    empty groups among the attributes. *)
Definition Group (key : string) (args : list Attr) : Attr :=
  mkAttr key (GroupValue (omit_empty_groups args)).

(** A [*slog.Logger]: the handler's level filter and a name for the sink
    the handler writes to. *)
Record Logger := mkLogger {
  sink : string;
  Enabled : Level -> bool
}.

(** What reaches the handler. *)
Record Record := mkRecord {
  record_sink : string;
  record_ctx : Context;
  record_level : Level;
  record_msg : string;
  record_attrs : list Attr
}.

End slog.

(** ** Go standard library: net/http *)

Module http.

(** [http.Header] is a [map[string][]string]; [None] is the nil map. *)
Definition Header := option (gmap string (list string)).

(** [Header.Get]: the first value stored under the canonical form of
    [key], the empty string when there is none. *)
Definition Header_Get (h : Header) (key : string) : string :=
  match h with
  | None => ""
  | Some m =>
      match m !! textproto.CanonicalMIMEHeaderKey key with
      | Some (v :: _) => v
      | _ => ""
      end
  end.

(** The names [for name := range h] visits. Go leaves the order open; the
    embedding enumerates with [map_to_list], and the properties below
    speak of membership only. *)
Definition Header_names (m : gmap string (list string)) : list string :=
  (map_to_list m).*1.

Record Request := mkRequest {
  Method : string;
  URL : option string;          (* the URL, by its String method *)
  Proto : string;
  Header_ : Header;
  Body : option ReadCloser;
  ContentLength : Z;
  ctx : option Context
}.

(** The method [Context] of a request reads the field [ctx] of its
    receiver, so it panics on a nil receiver. *)
Definition Request_Context (r : Request) : Context :=
  match ctx r with
  | Some c => c
  | None => Background
  end.

Definition Request_set_Body (r : Request) (b : option ReadCloser) : Request :=
  {| Method := Method r; URL := URL r; Proto := Proto r; Header_ := Header_ r;
     Body := b; ContentLength := ContentLength r; ctx := ctx r |}.

Record Response := mkResponse {
  StatusCode : Z;
  ResponseHeader : Header;
  ResponseBody : option ReadCloser;
  ResponseContentLength : Z
}.

Definition Response_set_Body (r : Response) (b : option ReadCloser) : Response :=
  {| StatusCode := StatusCode r; ResponseHeader := ResponseHeader r;
     ResponseBody := b; ResponseContentLength := ResponseContentLength r |}.

(** [http.StatusText] for the codes of net/http's table; the empty string
    for an unknown code. *)
Definition StatusText (code : Z) : string :=
  match code with
  | 100 => "Continue" | 101 => "Switching Protocols" | 102 => "Processing"
  | 103 => "Early Hints"
  | 200 => "OK" | 201 => "Created" | 202 => "Accepted"
  | 203 => "Non-Authoritative Information" | 204 => "No Content"
  | 205 => "Reset Content" | 206 => "Partial Content" | 207 => "Multi-Status"
  | 208 => "Already Reported" | 226 => "IM Used"
  | 300 => "Multiple Choices" | 301 => "Moved Permanently" | 302 => "Found"
  | 303 => "See Other" | 304 => "Not Modified" | 305 => "Use Proxy"
  | 307 => "Temporary Redirect" | 308 => "Permanent Redirect"
  | 400 => "Bad Request" | 401 => "Unauthorized" | 402 => "Payment Required"
  | 403 => "Forbidden" | 404 => "Not Found" | 405 => "Method Not Allowed"
  | 406 => "Not Acceptable" | 407 => "Proxy Authentication Required"
  | 408 => "Request Timeout" | 409 => "Conflict" | 410 => "Gone"
  | 411 => "Length Required" | 412 => "Precondition Failed"
  | 413 => "Request Entity Too Large" | 414 => "Request URI Too Long"
  | 415 => "Unsupported Media Type"
  | 416 => "Requested Range Not Satisfiable" | 417 => "Expectation Failed"
  | 418 => "I'm a teapot" | 421 => "Misdirected Request"
  | 422 => "Unprocessable Entity" | 423 => "Locked"
  | 424 => "Failed Dependency" | 425 => "Too Early"
  | 426 => "Upgrade Required" | 428 => "Precondition Required"
  | 429 => "Too Many Requests" | 431 => "Request Header Fields Too Large"
  | 451 => "Unavailable For Legal Reasons"
  | 500 => "Internal Server Error" | 501 => "Not Implemented"
  | 502 => "Bad Gateway" | 503 => "Service Unavailable"
  | 504 => "Gateway Timeout" | 505 => "HTTP Version Not Supported"
  | 506 => "Variant Also Negotiates" | 507 => "Insufficient Storage"
  | 508 => "Loop Detected" | 510 => "Not Extended"
  | 511 => "Network Authentication Required"
  | _ => ""
  end.

End http.

(** ** Results and effects of a round trip *)

(** The panics the package can run into: a nil pointer or nil interface
    value is used ([what] names the expression), or the delegate panics. *)
Inductive Panic :=
| NilDereference (what : string)
| DelegatePanic (msg : string).

(** What a call of [RoundTrip] does besides returning. [EvClose body] is a
    call of [Close] on the reader that came in as [body]. [EvRoundTrip req inner]
    is one call of the delegate: [req] is the request as the delegate
    receives it, [inner] what the delegate did in turn. *)
Inductive Event :=
| EvClose (body : ReadCloser)
| EvRoundTrip (req : option http.Request) (inner : list Event)
| EvLog (r : slog.Record).

Inductive Result :=
| Return (res : option http.Response) (err : option error)
| Panicked (p : Panic).

Record Outcome := mkOutcome {
  result : Result;
  request_after : option http.Request;  (* the request object after the call *)
  events : list Event;
  finished : Time;                      (* the clock when the call ends *)
  same_body : bool   (* the response's Body is the reader the request's Body holds *)
}.

(** The records this call itself handed to a handler, the number of times
    it called its delegate, and the bodies it closed: the events of the
    delegate are nested under [EvRoundTrip] and do not count. *)
Definition own_records (evs : list Event) : list slog.Record :=
  omap (fun e => match e with EvLog r => Some r | _ => None end) evs.

Definition delegate_calls (evs : list Event) : list (option http.Request) :=
  omap (fun e => match e with EvRoundTrip r _ => Some r | _ => None end) evs.

Definition closed_bodies (evs : list Event) : list ReadCloser :=
  omap (fun e => match e with EvClose b => Some b | _ => None end) evs.

(** ** The package *)

(** [type SlogTripper struct], over the type of round trippers it wraps. *)
Record SlogTripperOf (T : Type) := mkSlogTripper {
  logger : option slog.Logger;
  logAtLevel : slog.Level;
  proxyTransport : option T;
  captureRequestBody : bool;
  captureResponseBody : bool;
  captureRequestHeaders : bool;
  captureResponseHeaders : bool
}.

Arguments mkSlogTripper {T}.
Arguments logger {T}.
Arguments logAtLevel {T}.
Arguments proxyTransport {T}.
Arguments captureRequestBody {T}.
Arguments captureResponseBody {T}.
Arguments captureRequestHeaders {T}.
Arguments captureResponseHeaders {T}.

(** An [http.RoundTripper] value: a [*SlogTripper], or an implementation
    from outside the package (the standard transport, a test double), which
    is given by what a call of it does at a given clock. *)
Inductive RoundTripper :=
| Foreign (roundTrip : Time -> option http.Request -> Outcome)
| Tripper (st : SlogTripperOf RoundTripper).

Definition SlogTripper := SlogTripperOf RoundTripper.

(** The process-wide state the package reads and writes:
    [http.DefaultTransport], [slog.Default()] and the [sync.Once] [m]. *)
Record Process := mkProcess {
  DefaultTransport : option RoundTripper;
  slog_Default : slog.Logger;
  m_done : bool
}.

(** [type Option]: a function on a [*SlogTripper]; the closures read the process-wide
    defaults when they are applied. *)
Definition Option := Process -> SlogTripper -> SlogTripper.

Definition WithLogger (l : option slog.Logger) : Option :=
  fun p st =>
    let l := match l with
             | None => Some (slog_Default p)
             | Some _ => l
             end in
    mkSlogTripper l (logAtLevel st) (proxyTransport st)
      (captureRequestBody st) (captureResponseBody st)
      (captureRequestHeaders st) (captureResponseHeaders st).

Definition WithLoggingLevel (level : slog.Level) : Option :=
  fun _ st =>
    mkSlogTripper (logger st) level (proxyTransport st)
      (captureRequestBody st) (captureResponseBody st)
      (captureRequestHeaders st) (captureResponseHeaders st).

Definition WithRoundTripper (t : option RoundTripper) : Option :=
  fun p st =>
    let t := match t with
             | None => DefaultTransport p
             | Some _ => t
             end in
    mkSlogTripper (logger st) (logAtLevel st) t
      (captureRequestBody st) (captureResponseBody st)
      (captureRequestHeaders st) (captureResponseHeaders st).

Definition CaptureRequestBody : Option :=
  fun _ st =>
    mkSlogTripper (logger st) (logAtLevel st) (proxyTransport st)
      true (captureResponseBody st)
      (captureRequestHeaders st) (captureResponseHeaders st).

Definition CaptureResponseBody : Option :=
  fun _ st =>
    mkSlogTripper (logger st) (logAtLevel st) (proxyTransport st)
      (captureRequestBody st) true
      (captureRequestHeaders st) (captureResponseHeaders st).

Definition CaptureRequestHeaders : Option :=
  fun _ st =>
    mkSlogTripper (logger st) (logAtLevel st) (proxyTransport st)
      (captureRequestBody st) (captureResponseBody st)
      true (captureResponseHeaders st).

Definition CaptureResponseHeaders : Option :=
  fun _ st =>
    mkSlogTripper (logger st) (logAtLevel st) (proxyTransport st)
      (captureRequestBody st) (captureResponseBody st)
      (captureRequestHeaders st) true.

(** The options the package exports. *)
Inductive exported : Option -> Prop :=
| exported_WithLogger l : exported (WithLogger l)
| exported_WithLoggingLevel level : exported (WithLoggingLevel level)
| exported_WithRoundTripper t : exported (WithRoundTripper t)
| exported_CaptureRequestBody : exported CaptureRequestBody
| exported_CaptureResponseBody : exported CaptureResponseBody
| exported_CaptureRequestHeaders : exported CaptureRequestHeaders
| exported_CaptureResponseHeaders : exported CaptureResponseHeaders.

Definition NewSlogTripper (p : Process) (opts : list Option) : SlogTripper :=
  let st := mkSlogTripper (Some (slog_Default p)) slog.LevelInfo (DefaultTransport p)
              false false false false in
  fold_left (fun st f => f p st) opts st.

(** [Init]: the body runs under [m.Do], that is, when [m] has not been
    used yet. The struct literal of the second assignment sets
    [proxyTransport] only; every other field has its zero value. *)
Definition Init (p : Process) : Process :=
  if m_done p then p
  else
    let p1 := mkProcess (Some (Tripper (NewSlogTripper p []))) (slog_Default p) true in
    mkProcess
      (Some (Tripper (mkSlogTripper None 0 (DefaultTransport p1)
                        false false false false)))
      (slog_Default p1) true.

(** The method [log] of [*slog.Logger], reached through [DebugContext] and [InfoContext]:
    the method asks the logger's handler whether the level is enabled, which
    dereferences the logger, and hands the record over when it is. The
    attributes go into the record through [Record.Add], which omits a group
    without attributes. *)
Definition Logger_log (l : option slog.Logger) (c : Context) (level : slog.Level)
    (msg : string) (args : list slog.Attr) : Panic + list Event :=
  match l with
  | None => inl (NilDereference "st.logger")
  | Some lg =>
      if slog.Enabled lg level
      then inr [EvLog (slog.mkRecord (slog.sink lg) c level msg
                         (slog.omit_empty_groups args))]
      else inr []
  end.

Definition DebugContext (l : option slog.Logger) := fun c => Logger_log l c slog.LevelDebug.
Definition InfoContext (l : option slog.Logger) := fun c => Logger_log l c slog.LevelInfo.

(** [func (st *SlogTripper) log(ctx, msg, args...)] *)
Definition log {T} (st : SlogTripperOf T) (c : Context) (msg : string)
    (args : list slog.Attr) : Panic + list Event :=
  if logAtLevel st =? slog.LevelDebug then DebugContext (logger st) c msg args
  else if logAtLevel st =? slog.LevelInfo then InfoContext (logger st) c msg args
  else inr [].

(** The header loop of [RoundTrip]: one string attribute per name of
    [names], with the value [values.Get(name)]. *)
Definition header_attrs (names : gmap string (list string)) (values : http.Header)
    : list slog.Attr :=
  (fun name => slog.String name (http.Header_Get values name)) <$> http.Header_names names.

Section RoundTrip.

Variable st : SlogTripper.

(** Lines 106-149 of [RoundTrip], up to the call of the delegate: the
    early return of line 128 ([inl]: the error and the request object as
    it is left), or the request group, the request object and the events
    so far ([inr]). *)
Definition RoundTrip_request (start : Time) (req : option http.Request)
    : error * option http.Request
      + list slog.Attr * option http.Request * list Event :=
  let requestGroup := [slog.Time "started_at" start] in
  match req with
  | None => inr (requestGroup, req, [])
  | Some r =>
      let requestGroup :=
        requestGroup ++ [slog.String "method" (http.Method r);
                         slog.Int64 "content_length" (http.ContentLength r);
                         slog.String "proto" (http.Proto r)] in
      let requestGroup :=
        match http.URL r with
        | Some u => requestGroup ++ [slog.String "url" u]
        | None => requestGroup
        end in
      let body :=
        match (if captureRequestBody st then http.Body r else None) with
        | Some rc =>
            let '(b, err, rc') := ReadFrom rc in
            match err with
            | Some e => inl (e, http.Request_set_Body r (Some rc'))
            | None =>
                inr (requestGroup ++ [slog.Any_string "body_content" b],
                     http.Request_set_Body r (Some (io_NopCloser b)),
                     [EvClose rc])
            end
        | None => inr (requestGroup, r, [])
        end in
      match body with
      | inl (e, r) => inl (e, Some r)
      | inr (requestGroup, r, evs) =>
          let requestGroup :=
            match (if captureRequestHeaders st then http.Header_ r else None) with
            | Some h =>
                let headers := header_attrs h (http.Header_ r) in
                if Nat.eqb (length headers) 0 then requestGroup
                else requestGroup ++ [slog.Group "headers" headers]
            | None => requestGroup
            end in
          inr (requestGroup, Some r, evs)
      end
  end.

(** Lines 153-193: the response group, from the pair [(res, err)] of the
    delegate, which returned when the clock showed [done]. [inl] is the
    early return of line 171 or the panic of line 186, where [req] is
    dereferenced inside the loop over the names of [res.Header]. *)
Definition RoundTrip_response (start done : Time) (req : option http.Request)
    (res : option http.Response) (err : option error)
    : Result * list Event
      + list slog.Attr * option http.Response * list Event :=
  let responseGroup :=
    match err with
    | Some e => [slog.Any_error "error" e]
    | None => []
    end in
  match res with
  | None => inr (responseGroup, res, [])
  | Some rs =>
      let responseGroup :=
        responseGroup ++
        [slog.String "status" (http.StatusText (http.StatusCode rs));
         slog.Int "status_code" (http.StatusCode rs);
         slog.Int64 "content_length" (http.ResponseContentLength rs);
         slog.Duration "time_taken" (time_Since done start);
         slog.String "content_type"
           (http.Header_Get (http.ResponseHeader rs) "Content-Type")] in
      let body :=
        match (if captureResponseBody st then http.ResponseBody rs else None) with
        | Some rc =>
            let '(b, err, rc') := ReadFrom rc in
            match err with
            | Some e => inl (Return None (Some e), [])
            | None =>
                inr (responseGroup ++ [slog.Any_string "body_content" b],
                     http.Response_set_Body rs (Some (io_NopCloser b)),
                     [EvClose rc])
            end
        | None => inr (responseGroup, rs, [])
        end in
      match body with
      | inl early => inl early
      | inr (responseGroup, rs, evs) =>
          match (if captureResponseHeaders st then http.ResponseHeader rs else None) with
          | Some h =>
              match req with
              | None =>
                  if Nat.eqb (length (http.Header_names h)) 0
                  then inr (responseGroup, Some rs, evs)
                  else inl (Panicked (NilDereference "req.Header"), evs)
              | Some r =>
                  let headers := header_attrs h (http.Header_ r) in
                  if Nat.eqb (length headers) 0
                  then inr (responseGroup, Some rs, evs)
                  else inr (responseGroup ++ [slog.Group "headers" headers],
                            Some rs, evs)
              end
          | None => inr (responseGroup, Some rs, evs)
          end
      end
  end.

(** The reader line 169 reads to the end, if it reads one. *)
Definition response_reader (res : option http.Response) : option ReadCloser :=
  match res with
  | Some rs => if captureResponseBody st then http.ResponseBody rs else None
  | None => None
  end.

(** The request object once line 169 has run. Bodies are objects: when
    [res.Body] is the very reader [req.Body] holds ([shared]), reading the
    response body has read the request's body with it. *)
Definition request_after_read (shared : bool) (req : option http.Request)
    (res : option http.Response) : option http.Request :=
  match req, response_reader res with
  | Some r, Some rc =>
      if shared then Some (http.Request_set_Body r (Some (snd (ReadFrom rc))))
      else req
  | _, _ => req
  end.

(** What a call of [st.proxyTransport.RoundTrip] does; [None] when the
    field holds no round tripper. *)
Variable delegate : option (Time -> option http.Request -> Outcome).

(** [func (st *SlogTripper) RoundTrip(req *http.Request)], called when the
    clock shows [now]. *)
Definition RoundTrip_body (now : Time) (req : option http.Request) : Outcome :=
  let start := now in
  match RoundTrip_request start req with
  | inl (e, req) => mkOutcome (Return None (Some e)) req [] now false
  | inr (requestGroup, req, evs) =>
      (* line 151 *)
      match delegate with
      | None =>
          mkOutcome (Panicked (NilDereference "st.proxyTransport")) req evs now false
      | Some roundTrip =>
          let o := roundTrip now req in
          let evs := evs ++ [EvRoundTrip req (events o)] in
          (* the request object is the one the delegate worked on *)
          let req :=
            match req, request_after o with
            | Some _, Some r' => Some r'
            | _, _ => req
            end in
          match result o with
          | Panicked p => mkOutcome (Panicked p) req evs (finished o) false
          | Return res err =>
              (* the request object as the read of line 169 leaves it *)
              let left := request_after_read (same_body o) req res in
              match RoundTrip_response start (finished o) req res err with
              | inl (early, evs') =>
                  mkOutcome early left (evs ++ evs') (finished o) false
              | inr (responseGroup, res', evs') =>
                  (* line 195: [req.Context()] is evaluated first *)
                  match req with
                  | None =>
                      mkOutcome (Panicked (NilDereference "req.Context()")) left
                        (evs ++ evs') (finished o) false
                  | Some r =>
                      match log st (http.Request_Context r) "HTTP Request"
                              [slog.Group "request" requestGroup;
                               slog.Group "response" responseGroup] with
                      | inl p =>
                          mkOutcome (Panicked p) left (evs ++ evs') (finished o) false
                      | inr logged =>
                          (* a body line 178 replaced is a reader of its own *)
                          mkOutcome (Return res' err) left (evs ++ evs' ++ logged)
                            (finished o)
                            (match response_reader res with
                             | Some _ => false
                             | None => same_body o
                             end)
                      end
                  end
              end
          end
      end
  end.

End RoundTrip.

(** A call of a round tripper: a [*SlogTripper] runs [RoundTrip] with the
    round tripper of its [proxyTransport] as delegate. *)
Fixpoint RoundTripper_RoundTrip (t : RoundTripper) : Time -> option http.Request -> Outcome :=
  match t with
  | Foreign roundTrip => roundTrip
  | Tripper st =>
      RoundTrip_body st
        (match proxyTransport st with
         | Some t' => Some (RoundTripper_RoundTrip t')
         | None => None
         end)
  end.

Definition RoundTrip (st : SlogTripper) : Time -> option http.Request -> Outcome :=
  RoundTripper_RoundTrip (Tripper st).

(** ** Observations on a call *)

(** The error of reading the request body, when [RoundTrip] reads it. *)
Definition request_read_error (st : SlogTripper) (req : option http.Request)
    : option error :=
  match req with
  | Some r =>
      match (if captureRequestBody st then http.Body r else None) with
      | Some rc => snd (fst (ReadFrom rc))
      | None => None
      end
  | None => None
  end.

(** The error of reading the response body, when [RoundTrip] reads it. *)
Definition response_read_error (st : SlogTripper) (rs : http.Response)
    : option error :=
  match (if captureResponseBody st then http.ResponseBody rs else None) with
  | Some rc => snd (fst (ReadFrom rc))
  | None => None
  end.

(** The request body [RoundTrip] reads to the end, if it reads one. *)
Definition request_body_read (st : SlogTripper) (req : option http.Request)
    : list ReadCloser :=
  match req with
  | Some r =>
      match (if captureRequestBody st then http.Body r else None) with
      | Some rc => [rc]
      | None => []
      end
  | None => []
  end.

(** The request as line 151 hands it to the delegate. *)
Definition forwarded (st : SlogTripper) (req : option http.Request)
    : option http.Request :=
  match req with
  | Some r =>
      match (if captureRequestBody st then http.Body r else None) with
      | Some rc => Some (http.Request_set_Body r (Some (io_NopCloser (fst (fst (ReadFrom rc))))))
      | None => Some r
      end
  | None => None
  end.

(** What a caller gets who reads the body of the request object to the
    end after the call. *)
Definition read_request_body (o : Outcome) : option (string * option error) :=
  match request_after o with
  | Some r =>
      match http.Body r with
      | Some rc => Some (io_ReadAll rc)
      | None => None
      end
  | None => None
  end.

(** Content preservation for the request, read literally: after a call
    that captured the request body, the body of the request object still
    reads the bytes it held before the call. *)
Definition request_body_survives (st : SlogTripper) (now : Time) (r : http.Request)
    : Prop :=
  forall rc,
    captureRequestBody st = true -> http.Body r = Some rc -> failure rc = None ->
    read_request_body (RoundTrip st now (Some r)) = Some (pending rc, None).

(** The attributes of the group [key] among [attrs]. *)
Definition group_attrs (key : string) (attrs : list slog.Attr) : option (list slog.Attr) :=
  match filter (fun a => bool_decide (slog.key_of a = key)) attrs with
  | slog.mkAttr _ (slog.GroupValue g) :: _ => Some g
  | _ => None
  end.

(** The [headers] group inside the [response] group of a record. *)
Definition logged_response_headers (r : slog.Record) : option (list slog.Attr) :=
  match group_attrs "response" (slog.record_attrs r) with
  | Some g => group_attrs "headers" g
  | None => None
  end.

(** The log step cannot panic: there is a logger, or the level is one the
    switch of [log] has no case for. *)
Definition can_log {T} (st : SlogTripperOf T) : bool :=
  match logger st with
  | Some _ => true
  | None => negb (logAtLevel st =? slog.LevelDebug) && negb (logAtLevel st =? slog.LevelInfo)
  end.

Definition capture_nothing {T} (st : SlogTripperOf T) : bool :=
  negb (captureRequestBody st) && negb (captureResponseBody st)
  && negb (captureRequestHeaders st) && negb (captureResponseHeaders st).

(** [t] is what [w] delegates to, directly or through further trippers. *)
Inductive wraps (t : option RoundTripper) : RoundTripper -> Prop :=
| wraps_here st : proxyTransport st = t -> wraps t (Tripper st)
| wraps_below st t' : proxyTransport st = Some t' -> wraps t t' -> wraps t (Tripper st).

(** ** Test doubles and sample values, after [slogtripper_test.go] *)

(** [MockRoundTripper]: answers from a function, leaves the request as it
    is. *)
Definition MockRoundTripper
    (MockRoundTrip : option http.Request -> option http.Response * option error)
    : RoundTripper :=
  Foreign (fun now req =>
             mkOutcome (Return (fst (MockRoundTrip req)) (snd (MockRoundTrip req)))
               req [] now false).

(** [ErrorReadCloser]: every [Read] fails. *)
Definition ErrorReadCloser : ReadCloser :=
  {| pending := ""; failure := Some "error" |}.

(** A transport that, like the standard one, reads the request body to the
    end before it answers. *)
Definition ConsumingRoundTripper (res : http.Response) : RoundTripper :=
  Foreign (fun now req =>
             mkOutcome (Return (Some res) None)
               (match req with
                | Some r =>
                    Some (http.Request_set_Body r
                            (match http.Body r with
                             | Some rc => Some (snd (ReadFrom rc))
                             | None => None
                             end))
                | None => None
                end)
               [] (now + 1) false).

(** A transport that answers with the body it was sent: the response's
    [Body] is the reader the request's [Body] holds, unread. *)
Definition EchoRoundTripper : RoundTripper :=
  Foreign (fun now req =>
             mkOutcome
               (Return (match req with
                        | Some r =>
                            Some {| http.StatusCode := 200; http.ResponseHeader := None;
                                    http.ResponseBody := http.Body r;
                                    http.ResponseContentLength := http.ContentLength r |}
                        | None => None
                        end) None)
               req [] now
               (match req with
                | Some r => match http.Body r with Some _ => true | None => false end
                | None => false
                end)).

(** [http.NewRequest(method, url, body)] *)
Definition http_NewRequest (method url : string) (body : option string) : http.Request :=
  {| http.Method := method; http.URL := Some url; http.Proto := "HTTP/1.1";
     http.Header_ := Some ∅;
     http.Body := match body with
                  | Some b => Some (io_NopCloser b)
                  | None => None
                  end;
     http.ContentLength := match body with
                           | Some b => Z.of_nat (String.length b)
                           | None => 0
                           end;
     http.ctx := Some Background |}.

Definition sample_logger : slog.Logger :=
  {| slog.sink := "stderr"; slog.Enabled := fun level => slog.LevelInfo <=? level |}.

Definition sample_response (headers : http.Header) (body : option ReadCloser) : http.Response :=
  {| http.StatusCode := 200; http.ResponseHeader := headers;
     http.ResponseBody := body; http.ResponseContentLength := 0 |}.

Definition sample_process (t : RoundTripper) : Process :=
  {| DefaultTransport := Some t; slog_Default := sample_logger; m_done := false |}.

(** The response body [RoundTrip] reads to the end, if the delegate
    returned a response and it reads its body. *)
Definition response_body_read (st : SlogTripper) (res : option http.Response)
    : list ReadCloser :=
  match res with
  | Some rs =>
      match (if captureResponseBody st then http.ResponseBody rs else None) with
      | Some rc => [rc]
      | None => []
      end
  | None => []
  end.

(** The error of reading the body of the response the delegate returned. *)
Definition returned_read_error (st : SlogTripper) (res : option http.Response)
    : option error :=
  match res with
  | Some rs => response_read_error st rs
  | None => None
  end.

(** The keys of a group, in order. *)
Definition attr_keys (attrs : list slog.Attr) : list string :=
  slog.key_of <$> attrs.

(** The layout of the two groups of a record: the keys of the request
    group for a request that is not nil, and the keys of the response group
    for the pair the delegate returned. *)
Definition request_keys (st : SlogTripper) (r : http.Request) : list string :=
  ["started_at"; "method"; "content_length"; "proto"]
  ++ (match http.URL r with Some _ => ["url"] | None => [] end)
  ++ (match (if captureRequestBody st then http.Body r else None) with
      | Some _ => ["body_content"]
      | None => []
      end)
  ++ (match (if captureRequestHeaders st then http.Header_ r else None) with
      | Some h => if bool_decide (h = ∅) then [] else ["headers"]
      | None => []
      end).

Definition response_keys (st : SlogTripper) (res : option http.Response)
    (err : option error) : list string :=
  (match err with Some _ => ["error"] | None => [] end)
  ++ match res with
     | None => []
     | Some rs =>
         ["status"; "status_code"; "content_length"; "time_taken"; "content_type"]
         ++ (match (if captureResponseBody st then http.ResponseBody rs else None) with
             | Some _ => ["body_content"]
             | None => []
             end)
         ++ (match (if captureResponseHeaders st
                    then http.ResponseHeader rs else None) with
             | Some h => if bool_decide (h = ∅) then [] else ["headers"]
             | None => []
             end)
     end.

(** A logger whose handler lets every level through. *)
Definition verbose_logger : slog.Logger :=
  {| slog.sink := "stdout"; slog.Enabled := fun _ => true |}.

(** ** Construction *)

Lemma exported_keeps_logger (p : Process) (f : Option) (st : SlogTripper) :
  exported f -> logger st <> None -> logger (f p st) <> None.
Proof.
  intros Hf Hst. destruct Hf as [l| | | | | |]; cbn; try exact Hst.
  destruct l; discriminate.
Qed.

Lemma fold_options_keep_logger (p : Process) (opts : list Option) :
  Forall exported opts ->
  forall st : SlogTripper,
    logger st <> None -> logger (fold_left (fun st f => f p st) opts st) <> None.
Proof.
  induction 1 as [|f opts Hf _ IH]; intros st Hst; cbn.
  - exact Hst.
  - apply IH. now apply exported_keeps_logger.
Qed.

(** A tripper built by [NewSlogTripper] from exported options has a logger. *)
Lemma NewSlogTripper_has_logger (p : Process) (opts : list Option) :
  Forall exported opts -> logger (NewSlogTripper p opts) <> None.
Proof.
  intros Hopts. unfold NewSlogTripper.
  apply fold_options_keep_logger; [exact Hopts | discriminate].
Qed.

Lemma NewSlogTripper_can_log (p : Process) (opts : list Option) :
  Forall exported opts -> can_log (NewSlogTripper p opts) = true.
Proof.
  intros Hopts. unfold can_log.
  destruct (logger (NewSlogTripper p opts)) eqn:E; [reflexivity|].
  now apply NewSlogTripper_has_logger in E.
Qed.

(** C10. [NewSlogTripper] without options yields a tripper whose logger is
    the process-wide default logger as it is at construction, whose level
    is [slog.LevelInfo], whose delegate is the process-wide default
    transport and whose four capture flags are false; [WithLogger(nil)] and
    [WithRoundTripper(nil)] store the process-wide default, not the nil
    reference, whatever options were applied before them. *)
Theorem NewSlogTripper_defaults (p : Process) :
  NewSlogTripper p [] =
    mkSlogTripper (Some (slog_Default p)) slog.LevelInfo (DefaultTransport p)
      false false false false
  /\ (forall opts,
        logger (NewSlogTripper p (opts ++ [WithLogger None])) = Some (slog_Default p))
  /\ (forall opts,
        proxyTransport (NewSlogTripper p (opts ++ [WithRoundTripper None]))
        = DefaultTransport p).
Proof.
  split; [reflexivity|].
  split; intros opts; unfold NewSlogTripper; rewrite fold_left_app; reflexivity.
Qed.

(** ** The log step *)

Lemma log_other_level {T} (st : SlogTripperOf T) (c : Context) (msg : string)
    (args : list slog.Attr) :
  logAtLevel st <> slog.LevelDebug -> logAtLevel st <> slog.LevelInfo ->
  log st c msg args = inr [].
Proof.
  intros Hd Hi. unfold log.
  destruct (Z.eqb_spec (logAtLevel st) slog.LevelDebug); [contradiction|].
  destruct (Z.eqb_spec (logAtLevel st) slog.LevelInfo); [contradiction|].
  reflexivity.
Qed.

Lemma log_emits_at_level {T} (st : SlogTripperOf T) (c : Context) (msg : string)
    (args : list slog.Attr) (evs : list Event) :
  log st c msg args = inr evs -> evs <> [] ->
  logAtLevel st = slog.LevelDebug \/ logAtLevel st = slog.LevelInfo.
Proof.
  intros Hlog Hne. unfold log in Hlog.
  destruct (Z.eqb_spec (logAtLevel st) slog.LevelDebug); [now left|].
  destruct (Z.eqb_spec (logAtLevel st) slog.LevelInfo); [now right|].
  congruence.
Qed.

Lemma log_can_log {T} (st : SlogTripperOf T) (c : Context) (msg : string)
    (args : list slog.Attr) :
  can_log st = true -> exists evs, log st c msg args = inr evs.
Proof.
  unfold can_log, log, DebugContext, InfoContext, Logger_log. intros H.
  destruct (logger st) as [lg|].
  - destruct (logAtLevel st =? slog.LevelDebug);
      [|destruct (logAtLevel st =? slog.LevelInfo)];
      try destruct (slog.Enabled lg _); eauto.
  - destruct (logAtLevel st =? slog.LevelDebug); [discriminate|].
    destruct (logAtLevel st =? slog.LevelInfo); [discriminate|]. eauto.
Qed.

Lemma log_nil_logger {T} (st : SlogTripperOf T) (c : Context) (msg : string)
    (args : list slog.Attr) :
  logger st = None ->
  logAtLevel st = slog.LevelDebug \/ logAtLevel st = slog.LevelInfo ->
  log st c msg args = inl (NilDereference "st.logger").
Proof.
  intros Hl Hlevel. unfold log, DebugContext, InfoContext, Logger_log.
  rewrite Hl. destruct Hlevel as [-> | ->]; reflexivity.
Qed.

(** ** Round trips *)

Lemma RoundTrip_unfold (st : SlogTripper) :
  RoundTrip st =
  RoundTrip_body st
    (match proxyTransport st with
     | Some t' => Some (RoundTripper_RoundTrip t')
     | None => None
     end).
Proof. reflexivity. Qed.

Lemma own_records_app (a b : list Event) :
  own_records (a ++ b) = own_records a ++ own_records b.
Proof. apply omap_app. Qed.

Lemma delegate_calls_app (a b : list Event) :
  delegate_calls (a ++ b) = delegate_calls a ++ delegate_calls b.
Proof. apply omap_app. Qed.

Lemma closed_bodies_app (a b : list Event) :
  closed_bodies (a ++ b) = closed_bodies a ++ closed_bodies b.
Proof. apply omap_app. Qed.

(** C2. When request-body capture is on and reading the request body
    fails, [RoundTrip] returns a nil response and the read error, has not
    called the delegate and has handed no record to the logger (it has
    done nothing observable at all). *)
Theorem request_body_read_failure (st : SlogTripper) (now : Time)
    (r : http.Request) (rc : ReadCloser) (e : error) :
  captureRequestBody st = true ->
  http.Body r = Some rc ->
  snd (fst (ReadFrom rc)) = Some e ->
  let o := RoundTrip st now (Some r) in
  result o = Return None (Some e)
  /\ delegate_calls (events o) = []
  /\ own_records (events o) = []
  /\ events o = [].
Proof.
  intros Hcap Hbody Herr o. subst o.
  rewrite RoundTrip_unfold. unfold RoundTrip_body, RoundTrip_request.
  rewrite Hcap, Hbody. cbn in Herr. cbn. rewrite Herr. cbn. auto.
Qed.

Lemma request_body_read_failure_witness :
  let st := NewSlogTripper
              (sample_process (MockRoundTripper (fun _ => (None, None))))
              [CaptureRequestBody] in
  let r := http.mkRequest "" None "" None (Some ErrorReadCloser) 0 None in
  result (RoundTrip st 0 (Some r)) = Return None (Some "error")
  /\ delegate_calls (events (RoundTrip st 0 (Some r))) = []
  /\ own_records (events (RoundTrip st 0 (Some r))) = []
  /\ events (RoundTrip st 0 (Some r)) = [].
Proof.
  intros st r.
  apply (request_body_read_failure st 0 r ErrorReadCloser "error");
    reflexivity.
Defined.

Lemma capture_nothing_flags {T} (st : SlogTripperOf T) :
  capture_nothing st = true ->
  captureRequestBody st = false /\ captureResponseBody st = false
  /\ captureRequestHeaders st = false /\ captureResponseHeaders st = false.
Proof.
  unfold capture_nothing.
  destruct (captureRequestBody st), (captureResponseBody st),
    (captureRequestHeaders st), (captureResponseHeaders st); cbn; intros H;
    try discriminate; auto.
Qed.

Lemma log_events {T} (st : SlogTripperOf T) (c : Context) (msg : string)
    (args : list slog.Attr) (evs : list Event) :
  log st c msg args = inr evs -> evs = [] \/ exists r, evs = [EvLog r].
Proof.
  unfold log, DebugContext, InfoContext, Logger_log. intros H.
  repeat case_match; simplify_eq; eauto.
Qed.

Lemma log_no_calls {T} (st : SlogTripperOf T) (c : Context) (msg : string)
    (args : list slog.Attr) (evs : list Event) :
  log st c msg args = inr evs -> delegate_calls evs = [] /\ closed_bodies evs = [].
Proof.
  intros H. apply log_events in H as [-> | [r ->]]; auto.
Qed.



(** *** The two phases around the delegate *)

Lemma RoundTrip_request_fails (st : SlogTripper) (start : Time)
    (req : option http.Request) (e : error) :
  request_read_error st req = Some e ->
  exists req', RoundTrip_request st start req = inl (e, req').
Proof.
  unfold request_read_error, RoundTrip_request. intros H.
  destruct req as [r|]; [|discriminate].
  destruct (if captureRequestBody st then http.Body r else None) as [rc|];
    [|discriminate].
  cbn in H |- *. rewrite H. eauto.
Qed.

Lemma RoundTrip_request_forwards (st : SlogTripper) (start : Time)
    (req : option http.Request) :
  request_read_error st req = None ->
  exists requestGroup,
    RoundTrip_request st start req
    = inr (requestGroup, forwarded st req, EvClose <$> request_body_read st req).
Proof.
  unfold request_read_error, RoundTrip_request, forwarded, request_body_read.
  intros H. destruct req as [r|]; [|eauto].
  destruct (if captureRequestBody st then http.Body r else None) as [rc|].
  - cbn in H |- *. rewrite H. eauto.
  - eauto.
Qed.

Lemma closes_only (bodies : list ReadCloser) :
  own_records (EvClose <$> bodies) = []
  /\ delegate_calls (EvClose <$> bodies) = []
  /\ closed_bodies (EvClose <$> bodies) = bodies.
Proof.
  induction bodies as [|b bodies (IH1 & IH2 & IH3)]; cbn; [auto|].
  repeat split; [exact IH1 | exact IH2 | now f_equal].
Qed.

(** The response phase closes at most the response body; it neither logs
    nor calls the delegate. *)
Lemma RoundTrip_response_events (st : SlogTripper) (start done : Time)
    (req : option http.Request) (res : option http.Response) (err : option error) :
  exists bodies,
    match RoundTrip_response st start done req res err with
    | inl (_, evs) => evs = EvClose <$> bodies
    | inr (_, _, evs) => evs = EvClose <$> bodies
    end.
Proof.
  unfold RoundTrip_response. destruct res as [rs|]; [|now exists []].
  destruct (if captureResponseBody st then http.ResponseBody rs else None) as [rc|].
  - cbn. destruct (failure rc); [now exists []|]. exists [rc].
    repeat case_match; simplify_eq; reflexivity.
  - exists []. repeat case_match; simplify_eq; reflexivity.
Qed.

Lemma RoundTrip_response_read_failure (st : SlogTripper) (start done : Time)
    (req : option http.Request) (rs : http.Response) (err : option error)
    (rc : ReadCloser) (e : error) :
  captureResponseBody st = true ->
  http.ResponseBody rs = Some rc ->
  snd (fst (ReadFrom rc)) = Some e ->
  RoundTrip_response st start done req (Some rs) err = inl (Return None (Some e), []).
Proof.
  intros Hcap Hbody Herr. unfold RoundTrip_response.
  rewrite Hcap, Hbody. cbn in Herr |- *. now rewrite Herr.
Qed.

(** The events of a call whose request phase succeeds: the request body
    closed if it was read, one call of the delegate with the forwarded
    request, the response body closed if it was read, and what the log
    step emitted. *)
Lemma RoundTrip_events_shape (st : SlogTripper) (t : RoundTripper) (now : Time)
    (req : option http.Request) :
  proxyTransport st = Some t ->
  request_read_error st req = None ->
  exists bodies logged,
    events (RoundTrip st now req)
    = (EvClose <$> request_body_read st req)
      ++ [EvRoundTrip (forwarded st req)
            (events (RoundTripper_RoundTrip t now (forwarded st req)))]
      ++ (EvClose <$> bodies) ++ logged
    /\ (logged = []
        \/ exists rec c args,
             logged = [EvLog rec] /\ log st c "HTTP Request" args = inr [EvLog rec]).
Proof.
  intros Ht Hreq. rewrite RoundTrip_unfold. unfold RoundTrip_body.
  destruct (RoundTrip_request_forwards st now req Hreq) as [g ->].
  rewrite Ht. cbv zeta.
  set (o := RoundTripper_RoundTrip t now (forwarded st req)).
  set (req' := match forwarded st req with
               | Some _ => match request_after o with
                           | Some r' => Some r'
                           | None => forwarded st req
                           end
               | None => forwarded st req
               end).
  destruct (result o) as [res err|pn].
  - destruct (RoundTrip_response_events st now (finished o) req' res err) as [bodies Hev].
    destruct (RoundTrip_response st now (finished o) req' res err)
      as [[early evs']|[[g' res'] evs']]; subst evs'.
    + exists bodies, []. cbn [events]. rewrite app_nil_r, <- app_assoc. auto.
    + destruct req' as [r'|].
      * destruct (log st _ _ _) as [pn|logged] eqn:El; cbn [events].
        -- exists bodies, []. rewrite app_nil_r, <- app_assoc. auto.
        -- exists bodies, logged. rewrite <- app_assoc. split; [reflexivity|].
           destruct (log_events _ _ _ _ _ El) as [-> | [rec ->]]; [now left|].
           right. eauto.
      * exists bodies, []. cbn [events]. rewrite app_nil_r, <- app_assoc. auto.
  - exists [], []. cbn [events]. auto.
Qed.

Lemma RoundTrip_calls_delegate_once (st : SlogTripper) (t : RoundTripper)
    (now : Time) (req : option http.Request) :
  proxyTransport st = Some t ->
  request_read_error st req = None ->
  delegate_calls (events (RoundTrip st now req)) = [forwarded st req].
Proof.
  intros Ht Hreq.
  destruct (RoundTrip_events_shape st t now req Ht Hreq) as (bodies & logged & -> & Hl).
  rewrite !delegate_calls_app.
  rewrite (proj1 (proj2 (closes_only _))), (proj1 (proj2 (closes_only _))).
  destruct Hl as [-> | (rec & c & args & -> & _)]; reflexivity.
Qed.

(** A record the call emits comes out of its log step. *)
Lemma RoundTrip_records_from_log (st : SlogTripper) (now : Time)
    (req : option http.Request) (rec : slog.Record) :
  In rec (own_records (events (RoundTrip st now req))) ->
  exists c args, log st c "HTTP Request" args = inr [EvLog rec].
Proof.
  destruct (request_read_error st req) as [e|] eqn:Hreq.
  - rewrite RoundTrip_unfold. unfold RoundTrip_body.
    destruct (RoundTrip_request_fails st now req e Hreq) as [req' ->].
    intros [].
  - destruct (proxyTransport st) as [t|] eqn:Ht.
    + destruct (RoundTrip_events_shape st t now req Ht Hreq)
        as (bodies & logged & -> & Hl).
      rewrite !own_records_app.
      rewrite (proj1 (closes_only _)), (proj1 (closes_only _)).
      destruct Hl as [-> | (rec' & c & args & -> & Hlog)]; cbn; [intros []|].
      intros [<- | []]. eauto.
    + rewrite RoundTrip_unfold. unfold RoundTrip_body.
      destruct (RoundTrip_request_forwards st now req Hreq) as [g ->].
      rewrite Ht. cbn [events]. rewrite (proj1 (closes_only _)). intros [].
Qed.

(** C9. The log step emits a record only at [slog.LevelInfo] or
    [slog.LevelDebug]: at any other configured level [log] does nothing,
    whatever the logger, and so a call of [RoundTrip] emits no record. *)
Theorem log_only_at_info_or_debug (st : SlogTripper) :
  logAtLevel st <> slog.LevelDebug ->
  logAtLevel st <> slog.LevelInfo ->
  (forall c msg args, log st c msg args = inr [])
  /\ (forall now req, own_records (events (RoundTrip st now req)) = []).
Proof.
  intros Hd Hi. split.
  - intros c msg args. now apply log_other_level.
  - intros now req.
    destruct (own_records (events (RoundTrip st now req))) as [|rec recs] eqn:E;
      [reflexivity|].
    destruct (RoundTrip_records_from_log st now req rec) as (c & args & Hlog).
    { rewrite E. now left. }
    rewrite log_other_level in Hlog by assumption. discriminate.
Qed.

Lemma log_only_at_info_or_debug_witness :
  let t := MockRoundTripper (fun _ => (Some (sample_response None None), None)) in
  let st := NewSlogTripper (sample_process t) [WithLoggingLevel slog.LevelWarn] in
  (forall c msg args, log st c msg args = inr [])
  /\ (forall now req, own_records (events (RoundTrip st now req)) = []).
Proof.
  intros t st. apply (log_only_at_info_or_debug st); discriminate.
Defined.

(** At the two levels the switch knows, a logger that has the level
    enabled does receive the record. *)
Lemma log_emits_when_enabled {T} (st : SlogTripperOf T) (lg : slog.Logger)
    (c : Context) (msg : string) (args : list slog.Attr) :
  logger st = Some lg ->
  logAtLevel st = slog.LevelDebug \/ logAtLevel st = slog.LevelInfo ->
  slog.Enabled lg (logAtLevel st) = true ->
  log st c msg args
  = inr [EvLog (slog.mkRecord (slog.sink lg) c (logAtLevel st) msg
                  (slog.omit_empty_groups args))].
Proof.
  intros Hl Hlevel Hen. unfold log, DebugContext, InfoContext, Logger_log.
  rewrite Hl. destruct Hlevel as [E | E]; rewrite E in Hen |- *; cbn;
    now rewrite Hen.
Qed.

(** C5. When response-body capture is on, the delegate returns a response
    and reading its body fails, [RoundTrip] returns a nil response and the
    read error, whatever error the delegate returned, and hands no record
    to the logger. *)
Theorem response_body_read_failure (st : SlogTripper) (t : RoundTripper)
    (now : Time) (req : option http.Request) (rs : http.Response)
    (err : option error) (rc : ReadCloser) (e : error) :
  proxyTransport st = Some t ->
  request_read_error st req = None ->
  captureResponseBody st = true ->
  result (RoundTripper_RoundTrip t now (forwarded st req)) = Return (Some rs) err ->
  http.ResponseBody rs = Some rc ->
  snd (fst (ReadFrom rc)) = Some e ->
  let o := RoundTrip st now req in
  result o = Return None (Some e)
  /\ own_records (events o) = []
  /\ delegate_calls (events o) = [forwarded st req].
Proof.
  intros Ht Hreq Hcap Hd Hbody Herr o. subst o.
  split; [|split].
  - rewrite RoundTrip_unfold. unfold RoundTrip_body.
    destruct (RoundTrip_request_forwards st now req Hreq) as [g ->].
    rewrite Ht. cbv zeta. rewrite Hd.
    now rewrite (RoundTrip_response_read_failure st _ _ _ rs err rc e Hcap Hbody Herr).
  - rewrite RoundTrip_unfold. unfold RoundTrip_body.
    destruct (RoundTrip_request_forwards st now req Hreq) as [g ->].
    rewrite Ht. cbv zeta. rewrite Hd.
    rewrite (RoundTrip_response_read_failure st _ _ _ rs err rc e Hcap Hbody Herr).
    cbn [events]. rewrite !own_records_app, (proj1 (closes_only _)). reflexivity.
  - now apply (RoundTrip_calls_delegate_once st t).
Qed.

Lemma response_body_read_failure_witness :
  let rs := sample_response None (Some ErrorReadCloser) in
  let t := MockRoundTripper (fun _ => (Some rs, None)) in
  let st := NewSlogTripper (sample_process t) [CaptureResponseBody] in
  let req := Some (http_NewRequest "GET" "http://localhost" None) in
  result (RoundTrip st 0 req) = Return None (Some "error")
  /\ own_records (events (RoundTrip st 0 req)) = []
  /\ delegate_calls (events (RoundTrip st 0 req)) = [forwarded st req].
Proof.
  intros rs t st req.
  apply (response_body_read_failure st t 0 req rs None ErrorReadCloser "error");
    reflexivity.
Defined.

(** *** Body capture *)

Lemma RoundTrip_request_after (st : SlogTripper) (t : RoundTripper) (now : Time)
    (req : option http.Request) :
  proxyTransport st = Some t ->
  request_read_error st req = None ->
  let d := RoundTripper_RoundTrip t now (forwarded st req) in
  let req' := match forwarded st req, request_after d with
              | Some _, Some r' => Some r'
              | _, _ => forwarded st req
              end in
  request_after (RoundTrip st now req)
  = match result d with
    | Return res _ => request_after_read st (same_body d) req' res
    | Panicked _ => req'
    end.
Proof.
  intros Ht Hreq d req'. rewrite RoundTrip_unfold. unfold RoundTrip_body.
  destruct (RoundTrip_request_forwards st now req Hreq) as [g ->].
  rewrite Ht. cbv zeta. fold d. fold req'.
  destruct (result d) as [res err|pn]; [|reflexivity].
  destruct (RoundTrip_response st now (finished d) req' res err)
    as [[early evs']|[[g' res'] evs']]; [reflexivity|].
  destruct req' as [r'|] eqn:E; [|reflexivity].
  destruct (log st _ _ _); reflexivity.
Qed.

Lemma io_ReadAll_NopCloser (b : string) : io_ReadAll (io_NopCloser b) = (b, None).
Proof. reflexivity. Qed.

Lemma RoundTrip_response_captures_body (st : SlogTripper) (start done : Time)
    (r : http.Request) (rs : http.Response) (err : option error) (rc : ReadCloser) :
  captureResponseBody st = true ->
  http.ResponseBody rs = Some rc ->
  failure rc = None ->
  exists responseGroup,
    RoundTrip_response st start done (Some r) (Some rs) err
    = inr (responseGroup,
           Some (http.Response_set_Body rs (Some (io_NopCloser (pending rc)))),
           [EvClose rc]).
Proof.
  intros Hcap Hbody Hok. unfold RoundTrip_response.
  rewrite Hcap, Hbody. cbn. rewrite Hok.
  repeat case_match; eauto.
Qed.

(** C3 (as amended). A body that is captured successfully is closed and
    replaced with a fresh reader over the captured bytes. For the request:
    the delegate is called once, with the request carrying a body that
    reads exactly the bytes present before the call; the request object
    still carries that body, unread, after the call when the delegate
    leaves the request as it received it and the response body [RoundTrip]
    reads is not that same reader (response-body capture is off, or the
    delegate's response does not carry the request's reader). For the
    response: the response returned is the delegate's with a body that
    reads exactly the bytes the delegate's response body held, next to the
    delegate's error. *)
Theorem body_capture_restores_content (st : SlogTripper) (t : RoundTripper)
    (now : Time) (r : http.Request) :
  proxyTransport st = Some t ->
  request_read_error st (Some r) = None ->
  let fwd := forwarded st (Some r) in
  let d := RoundTripper_RoundTrip t now fwd in
  let o := RoundTrip st now (Some r) in
  (forall rc,
     captureRequestBody st = true -> http.Body r = Some rc ->
     let fresh := io_NopCloser (pending rc) in
     io_ReadAll fresh = (pending rc, None)
     /\ fwd = Some (http.Request_set_Body r (Some fresh))
     /\ delegate_calls (events o) = [fwd]
     /\ In rc (closed_bodies (events o))
     /\ (request_after d = fwd ->
         captureResponseBody st = false \/ same_body d = false ->
         read_request_body o = Some (pending rc, None)))
  /\ (forall rs err rc,
        captureResponseBody st = true -> can_log st = true ->
        result d = Return (Some rs) err ->
        http.ResponseBody rs = Some rc -> failure rc = None ->
        let fresh := io_NopCloser (pending rc) in
        io_ReadAll fresh = (pending rc, None)
        /\ result o = Return (Some (http.Response_set_Body rs (Some fresh))) err
        /\ In rc (closed_bodies (events o))).
Proof.
  intros Ht Hreq fwd d o. split.
  - intros rc Hcap Hbody fresh.
    assert (Hfwd : fwd = Some (http.Request_set_Body r (Some fresh))).
    { subst fwd. unfold forwarded. now rewrite Hcap, Hbody. }
    split; [reflexivity|]. split; [exact Hfwd|].
    split; [now apply (RoundTrip_calls_delegate_once st t)|]. split.
    + subst o. destruct (RoundTrip_events_shape st t now (Some r) Ht Hreq)
        as (bodies & logged & -> & _).
      rewrite closed_bodies_app, (proj2 (proj2 (closes_only _))).
      apply in_or_app. left. unfold request_body_read.
      rewrite Hcap, Hbody. now left.
    + intros Hafter Hown. unfold read_request_body. subst o.
      rewrite (RoundTrip_request_after st t now (Some r) Ht Hreq).
      fold fwd. fold d. rewrite Hafter, Hfwd.
      destruct (result d) as [res err|pn]; [|reflexivity].
      unfold request_after_read, response_reader.
      destruct Hown as [-> | ->]; destruct res as [rs|];
        try destruct (captureResponseBody st);
        try destruct (http.ResponseBody rs); reflexivity.
  - intros rs err rc Hcap Hlog Hd Hbody Hok fresh.
    split; [reflexivity|].
    subst o. rewrite RoundTrip_unfold. unfold RoundTrip_body.
    destruct (RoundTrip_request_forwards st now (Some r) Hreq) as [g ->].
    rewrite Ht. cbv zeta. fold fwd. fold d. rewrite Hd.
    assert (Hsome : exists r', match fwd, request_after d with
                               | Some _, Some r' => Some r'
                               | _, _ => fwd
                               end = Some r').
    { subst fwd. unfold forwarded. repeat case_match; eauto. }
    destruct Hsome as [r' ->].
    destruct (RoundTrip_response_captures_body st now (finished d) r' rs err rc
                Hcap Hbody Hok) as [g' ->].
    match goal with
    | |- context [log st ?c ?m ?a] =>
        destruct (log_can_log st c m a Hlog) as [logged ->]
    end.
    cbn [result events]. split; [reflexivity|].
    rewrite !closed_bodies_app. apply in_or_app. right.
    apply in_or_app. left. now left.
Qed.

Lemma body_capture_restores_content_witness :
  let rs := sample_response None (Some (io_NopCloser "pong")) in
  let t := MockRoundTripper (fun _ => (Some rs, None)) in
  let st := NewSlogTripper (sample_process t) [CaptureRequestBody; CaptureResponseBody] in
  let r := http_NewRequest "POST" "http://localhost/" (Some "hello") in
  read_request_body (RoundTrip st 0 (Some r)) = Some ("hello", None)
  /\ result (RoundTrip st 0 (Some r))
     = Return (Some (http.Response_set_Body rs (Some (io_NopCloser "pong")))) None.
Proof.
  intros rs t st r.
  destruct (body_capture_restores_content st t 0 r eq_refl eq_refl) as [Hq Hs].
  split.
  - apply (Hq (io_NopCloser "hello") eq_refl eq_refl); [reflexivity|].
    right. reflexivity.
  - apply (Hs rs None (io_NopCloser "pong")); reflexivity.
Defined.

(** C3 (as stated) fails for the request: a delegate that reads the request
    body, as a transport does when it sends the request, reads the fresh
    reader, and the body of the request object is at its end after the
    call. *)
Lemma request_body_consumed_by_delegate :
  let t := ConsumingRoundTripper (sample_response None None) in
  let st := NewSlogTripper (sample_process t) [CaptureRequestBody] in
  let r := http_NewRequest "POST" "http://localhost/" (Some "hello") in
  ~ request_body_survives st 0 r.
Proof.
  intros t st r H.
  specialize (H (io_NopCloser "hello") eq_refl eq_refl eq_refl).
  vm_compute in H. discriminate H.
Qed.

(** The same happens without the delegate reading anything, when it hands
    the request's reader back as the body of the response and both body
    captures are on: line 169 reads the reader line 134 put on the request.
    The response returned reads the bytes; the request object is left with
    the reader at its end. *)
Example request_body_drained_through_response :
  let st := NewSlogTripper (sample_process EchoRoundTripper)
              [CaptureRequestBody; CaptureResponseBody] in
  let r := http_NewRequest "POST" "http://localhost/" (Some "hello") in
  let o := RoundTrip st 0 (Some r) in
  read_request_body o = Some ("", None)
  /\ match result o with
     | Return (Some rs) None =>
         io_ReadAll <$> http.ResponseBody rs = Some ("hello", None)
     | _ => False
     end
  /\ same_body o = false.
Proof. vm_compute. repeat split; reflexivity. Qed.

(** With response-body capture off the reader stays shared and unread. *)
Example request_body_shared_with_response :
  let st := NewSlogTripper (sample_process EchoRoundTripper) [CaptureRequestBody] in
  let r := http_NewRequest "POST" "http://localhost/" (Some "hello") in
  let o := RoundTrip st 0 (Some r) in
  read_request_body o = Some ("hello", None) /\ same_body o = true.
Proof. vm_compute. split; reflexivity. Qed.

(** *** Header capture *)

Lemma header_attrs_length (h : gmap string (list string)) (values : http.Header) :
  length (header_attrs h values) = size h.
Proof.
  unfold header_attrs, http.Header_names.
  now rewrite !length_fmap, length_map_to_list.
Qed.

Lemma header_attrs_empty (h : gmap string (list string)) (values : http.Header) :
  Nat.eqb (length (header_attrs h values)) 0 = bool_decide (h = ∅).
Proof.
  rewrite header_attrs_length. case_bool_decide as E.
  - subst h. reflexivity.
  - apply Nat.eqb_neq. now rewrite map_size_empty_iff.
Qed.

(** The names of the logged header attributes are the names of [h]. *)
Lemma header_attrs_names (h : gmap string (list string)) (values : http.Header)
    (name : string) :
  In name (slog.key_of <$> header_attrs h values) <-> is_Some (h !! name).
Proof.
  unfold header_attrs, http.Header_names. rewrite <- list_fmap_compose.
  rewrite <- list_elem_of_In, list_elem_of_fmap. split.
  - intros (k & -> & Hin). apply list_elem_of_fmap in Hin as ([k' v] & -> & Hin).
    apply elem_of_map_to_list in Hin. cbn. eauto.
  - intros [v Hv]. exists name. split; [reflexivity|].
    apply list_elem_of_fmap. exists (name, v). split; [reflexivity|].
    now apply elem_of_map_to_list.
Qed.

(** The loop of lines 184-187 takes the names from the response and the
    values from the request: when response-header capture is on and the
    response body is not one whose read fails, the response group of a
    response with header map [h] ends with a [headers] group exactly when
    [h] has a name, and the group is [header_attrs h] over the header of
    the request. *)
Lemma RoundTrip_response_headers (st : SlogTripper) (start done : Time)
    (r : http.Request) (rs : http.Response) (err : option error)
    (h : gmap string (list string)) :
  captureResponseHeaders st = true ->
  http.ResponseHeader rs = Some h ->
  response_read_error st rs = None ->
  exists responseGroup rs' evs,
    RoundTrip_response st start done (Some r) (Some rs) err
    = inr (responseGroup
             ++ (if bool_decide (h = ∅) then []
                 else [slog.Group "headers" (header_attrs h (http.Header_ r))]),
           rs', evs).
Proof.
  intros Hcap Hh. unfold RoundTrip_response, response_read_error. rewrite Hcap.
  destruct (if captureResponseBody st then http.ResponseBody rs else None) as [rc|].
  - unfold ReadFrom. cbn [fst snd]. intros ->.
    change (http.ResponseHeader (http.Response_set_Body rs ?b))
      with (http.ResponseHeader rs).
    rewrite Hh. cbv zeta. rewrite header_attrs_empty.
    destruct (bool_decide (h = ∅)); do 3 eexists; rewrite ?app_nil_r; reflexivity.
  - intros _. rewrite Hh. cbv zeta. rewrite header_attrs_empty.
    destruct (bool_decide (h = ∅)); do 3 eexists; rewrite ?app_nil_r; reflexivity.
Qed.

(** C1, on the code: response-header capture logs, under each name of the
    response header, the value the request header has for that name. Here
    the response says [text/plain], the request [application/json], and the
    record carries [application/json] in the headers of the response. *)
Theorem response_headers_take_request_values :
  let rs := sample_response (Some {[ "Content-Type" := ["text/plain"] ]}) None in
  let t := MockRoundTripper (fun _ => (Some rs, None)) in
  let st := NewSlogTripper (sample_process t) [CaptureResponseHeaders] in
  let r := http.mkRequest "POST" (Some "http://localhost/") "HTTP/1.1"
             (Some {[ "Content-Type" := ["application/json"] ]}) None 0
             (Some Background) in
  http.Header_Get (http.ResponseHeader rs) "Content-Type" = "text/plain"
  /\ logged_response_headers <$> own_records (events (RoundTrip st 0 (Some r)))
     = [Some [slog.String "Content-Type" "application/json"]].
Proof. vm_compute. split; reflexivity. Qed.

(** With a request that has no header of that name, the value logged for
    the response header is the empty string. *)
Example response_headers_empty_for_plain_request :
  let rs := sample_response (Some {[ "Content-Type" := ["text/plain"] ]}) None in
  let t := MockRoundTripper (fun _ => (Some rs, None)) in
  let st := NewSlogTripper (sample_process t) [CaptureResponseHeaders] in
  let r := http_NewRequest "GET" "http://localhost/" None in
  logged_response_headers <$> own_records (events (RoundTrip st 0 (Some r)))
  = [Some [slog.String "Content-Type" ""]].
Proof. vm_compute. reflexivity. Qed.

(** *** A nil request *)

(** With a nil request no record is ever emitted, and the call returns only
    through the early return of a failed response-body read: otherwise it
    panics, at the latest at [req.Context()] on line 195. *)
Lemma nil_request_never_logs (st : SlogTripper) (now : Time) :
  own_records (events (RoundTrip st now None)) = []
  /\ (forall res err,
        result (RoundTrip st now None) = Return res err ->
        res = None /\ is_Some err).
Proof.
  split.
  - destruct (own_records (events (RoundTrip st now None))) as [|rec recs] eqn:E;
      [reflexivity|]. exfalso.
    revert E. rewrite RoundTrip_unfold. unfold RoundTrip_body. cbn.
    destruct (proxyTransport st) as [t|]; [|discriminate]. cbn.
    destruct (result _) as [res err|pn]; [|discriminate].
    destruct (RoundTrip_response_events st now
                (finished (RoundTripper_RoundTrip t now None)) None res err)
      as [bodies Hev].
    destruct (RoundTrip_response _ _ _ _ _ _) as [[early evs]|[[g res'] evs]];
      subst evs; cbn [events];
      change (?x :: ?l) with ([x] ++ l);
      rewrite own_records_app, (proj1 (closes_only _)); discriminate.
  - intros res err. rewrite RoundTrip_unfold. unfold RoundTrip_body. cbn.
    destruct (proxyTransport st) as [t|]; [|discriminate]. cbn.
    destruct (result (RoundTripper_RoundTrip t now None)) as [res0 err0|pn];
      [|discriminate].
    unfold RoundTrip_response.
    repeat case_match; simplify_eq; cbn; intros; simplify_eq; eauto.
Qed.

(** C6, on the code: a nil request, with a delegate that answers it, makes
    [RoundTrip] panic on [req.Context()]; nothing is logged. *)
Theorem nil_request_panics :
  let t := MockRoundTripper (fun _ => (Some (sample_response None None), None)) in
  let st := NewSlogTripper (sample_process t) [] in
  result (RoundTrip st 0 None) = Panicked (NilDereference "req.Context()")
  /\ own_records (events (RoundTrip st 0 None)) = [].
Proof. vm_compute. split; reflexivity. Qed.

(** *** Installation as the default transport *)

Lemma Init_done (p : Process) : m_done (Init p) = true.
Proof. unfold Init. destruct (m_done p) eqn:E; [exact E | reflexivity]. Qed.

Lemma Init_again (p : Process) : m_done p = true -> Init p = p.
Proof. intros H. unfold Init. now rewrite H. Qed.

Lemma Init_repeated (p : Process) (n : nat) : Nat.iter (S n) Init p = Init p.
Proof.
  induction n as [|n IH]; [reflexivity|].
  change (Nat.iter (S (S n)) Init p) with (Init (Nat.iter (S n) Init p)).
  rewrite IH. apply Init_again, Init_done.
Qed.

(** C7. The body of [Init] runs at most once: a call of [Init] in a process
    where it has run leaves the process, and so the default transport, as
    it is, however often it is repeated. After the first call the default
    transport is a [*SlogTripper] that wraps the transport that was the
    default when [Init] was called: it delegates to the tripper
    [NewSlogTripper()] built from that default, which delegates to it. *)
Theorem Init_installs_once (p : Process) :
  (forall n, DefaultTransport (Nat.iter (S n) Init p) = DefaultTransport (Init p))
  /\ Init (Init p) = Init p
  /\ (m_done p = false ->
      exists outer,
        DefaultTransport (Init p) = Some (Tripper outer)
        /\ proxyTransport outer = Some (Tripper (NewSlogTripper p []))
        /\ proxyTransport (NewSlogTripper p []) = DefaultTransport p
        /\ wraps (DefaultTransport p) (Tripper outer)).
Proof.
  split; [|split].
  - intros n. now rewrite Init_repeated.
  - apply Init_again, Init_done.
  - intros Hm. unfold Init. rewrite Hm. cbn.
    eexists. split; [reflexivity|]. cbn. split; [reflexivity|].
    split; [reflexivity|].
    eapply wraps_below; [reflexivity|]. now apply wraps_here.
Qed.

Lemma Init_installs_once_witness :
  let t := MockRoundTripper (fun _ => (Some (sample_response None None), None)) in
  let p := sample_process t in
  exists outer,
    DefaultTransport (Init p) = Some (Tripper outer)
    /\ proxyTransport outer = Some (Tripper (NewSlogTripper p []))
    /\ proxyTransport (NewSlogTripper p []) = DefaultTransport p
    /\ wraps (DefaultTransport p) (Tripper outer).
Proof.
  intros t p.
  exact (proj2 (proj2 (Init_installs_once p)) eq_refl).
Defined.

(** A tripper without a logger, at a level [log] has a case for, and with
    the captures off panics in the log step whenever its delegate returns
    for a request that is not nil. *)
Lemma nil_logger_panics (st : SlogTripper) (t : RoundTripper) (now : Time)
    (r : http.Request) (res : option http.Response) (err : option error) :
  capture_nothing st = true ->
  proxyTransport st = Some t ->
  logger st = None ->
  logAtLevel st = slog.LevelDebug \/ logAtLevel st = slog.LevelInfo ->
  result (RoundTripper_RoundTrip t now (Some r)) = Return res err ->
  result (RoundTrip st now (Some r)) = Panicked (NilDereference "st.logger").
Proof.
  intros Hflags Ht Hl Hlevel Hd.
  apply capture_nothing_flags in Hflags as (Hqb & Hsb & Hqh & Hsh).
  rewrite RoundTrip_unfold.
  unfold RoundTrip_body, RoundTrip_request, RoundTrip_response.
  rewrite Ht, Hqb, Hsb, Hqh, Hsh. cbv zeta. rewrite Hd.
  destruct res as [rs|], (request_after (RoundTripper_RoundTrip t now (Some r)));
    rewrite log_nil_logger by assumption; reflexivity.
Qed.

(** With the captures off a call returns only what its delegate returned. *)
Lemma RoundTrip_returns_delegate_result (st : SlogTripper) (now : Time)
    (req : option http.Request) (res : option http.Response) (err : option error) :
  capture_nothing st = true ->
  result (RoundTrip st now req) = Return res err ->
  exists t, proxyTransport st = Some t
            /\ result (RoundTripper_RoundTrip t now req) = Return res err
            /\ req <> None.
Proof.
  intros Hflags.
  apply capture_nothing_flags in Hflags as (Hqb & Hsb & Hqh & Hsh).
  rewrite RoundTrip_unfold.
  unfold RoundTrip_body, RoundTrip_request, RoundTrip_response.
  rewrite Hqb, Hsb, Hqh, Hsh.
  destruct (proxyTransport st) as [t|]; [|destruct req; discriminate].
  intros H. exists t. split; [reflexivity|]. revert H.
  destruct req as [r|]; cbv zeta;
    destruct (result (RoundTripper_RoundTrip t now _)) as [res0 err0|pn];
    repeat case_match; simplify_eq; cbn; intros; simplify_eq; auto.
Qed.

(** C8. The tripper [Init] installs as the default transport has a nil
    logger and the zero level, which is [slog.LevelInfo]: its log step
    dereferences the nil logger, so a call through it that reaches the log
    step (the request is not nil and the wrapped tripper returns) panics
    there, and no call through it returns. *)
Theorem Init_installs_nil_logger (p : Process) :
  m_done p = false ->
  exists st,
    DefaultTransport (Init p) = Some (Tripper st)
    /\ logger st = None
    /\ logAtLevel st = 0
    /\ slog.LevelInfo = 0
    /\ (forall c msg args, log st c msg args = inl (NilDereference "st.logger"))
    /\ (forall now r res err,
          result (RoundTrip (NewSlogTripper p []) now (Some r)) = Return res err ->
          result (RoundTrip st now (Some r)) = Panicked (NilDereference "st.logger"))
    /\ (forall now req res err, result (RoundTrip st now req) <> Return res err).
Proof.
  intros Hm. unfold Init. rewrite Hm. cbn [DefaultTransport].
  eexists. split; [reflexivity|]. cbn [logger logAtLevel].
  do 3 (split; [reflexivity|]).
  split; [|split].
  - intros c msg args. apply log_nil_logger; [reflexivity | now right].
  - intros now r res err Hd.
    eapply nil_logger_panics; [reflexivity | reflexivity | reflexivity | now right |].
    exact Hd.
  - intros now req res err H.
    match type of H with
    | result (RoundTrip ?s _ _) = _ =>
        destruct (RoundTrip_returns_delegate_result s now req res err eq_refl H)
          as (t & Ht & Hd & Hreq);
        destruct req as [r|]; [|congruence];
        rewrite (nil_logger_panics s t now r res err eq_refl Ht eq_refl
                   (or_intror eq_refl) Hd) in H
    end.
    discriminate.
Qed.

Lemma Init_installs_nil_logger_witness :
  let t := MockRoundTripper (fun _ => (Some (sample_response None None), None)) in
  let p := sample_process t in
  let r := http_NewRequest "GET" "http://localhost" None in
  exists st,
    DefaultTransport (Init p) = Some (Tripper st)
    /\ logger st = None
    /\ result (RoundTrip st 0 (Some r)) = Panicked (NilDereference "st.logger").
Proof.
  intros t p r.
  destruct (Init_installs_nil_logger p eq_refl)
    as (st & Hst & Hl & _ & _ & _ & Hpanic & _).
  exists st. split; [exact Hst|]. split; [exact Hl|].
  apply (Hpanic 0 r (Some (sample_response None None)) None). reflexivity.
Defined.

(** ** Scenarios of the test suite *)

(** A nil request gets the request group with the time stamp alone, and is
    handed to the delegate as it is. *)
Lemma nil_request_group (st : SlogTripper) (start : Time) :
  RoundTrip_request st start None = inr ([slog.Time "started_at" start], None, []).
Proof. reflexivity. Qed.

(** [GET http://localhost/] through a tripper with every capture on, the
    delegate answering 200 with a body: one record, with the method, the
    status code and the body in it, and the body of the returned response
    still reads the same bytes. *)
Example scenario_basic_get :
  let rs := sample_response None (Some (io_NopCloser "gday")) in
  let t := MockRoundTripper (fun _ => (Some rs, None)) in
  let st := NewSlogTripper (sample_process t)
              [WithLogger (Some sample_logger); WithLoggingLevel slog.LevelInfo;
               WithRoundTripper (Some t); CaptureRequestBody; CaptureResponseBody;
               CaptureRequestHeaders; CaptureResponseHeaders] in
  let o := RoundTrip st 5 (Some (http_NewRequest "GET" "http://localhost/" None)) in
  result o = Return (Some (sample_response None (Some (io_NopCloser "gday")))) None
  /\ slog.record_attrs <$> own_records (events o)
     = [[slog.Group "request"
           [slog.Time "started_at" 5; slog.String "method" "GET";
            slog.Int64 "content_length" 0; slog.String "proto" "HTTP/1.1";
            slog.String "url" "http://localhost/"];
         slog.Group "response"
           [slog.String "status" "OK"; slog.Int "status_code" 200;
            slog.Int64 "content_length" 0; slog.Duration "time_taken" 0;
            slog.String "content_type" ""; slog.Any_string "body_content" "gday"]]].
Proof. vm_compute. split; reflexivity. Qed.

(** The delegate fails: its error comes back with the nil response, the
    delegate was called once and the record carries the error. *)
Example scenario_response_error :
  let t := MockRoundTripper (fun _ => (None, Some "mock error")) in
  let st := NewSlogTripper (sample_process t) [WithRoundTripper (Some t)] in
  let r := http_NewRequest "GET" "http://localhost" None in
  let o := RoundTrip st 0 (Some r) in
  result o = Return None (Some "mock error")
  /\ delegate_calls (events o) = [Some r]
  /\ (group_attrs "response" ∘ slog.record_attrs) <$> own_records (events o)
     = [Some [slog.Any_error "error" "mock error"]].
Proof. vm_compute. repeat split; reflexivity. Qed.

(** A debug-level tripper on a logger that filters at info emits nothing,
    and the call still returns the delegate's pair. *)
Example scenario_filtered_by_logger :
  let rs := sample_response None None in
  let t := MockRoundTripper (fun _ => (Some rs, None)) in
  let st := NewSlogTripper (sample_process t) [WithLoggingLevel slog.LevelDebug] in
  let o := RoundTrip st 0 (Some (http_NewRequest "GET" "http://localhost/" None)) in
  result o = Return (Some rs) None /\ own_records (events o) = [].
Proof. vm_compute. split; reflexivity. Qed.

(** Header keys as [Header.Get] looks them up. *)
Example canonical_header_keys :
  textproto.CanonicalMIMEHeaderKey "content-type" = "Content-Type"
  /\ textproto.CanonicalMIMEHeaderKey "example" = "Example"
  /\ textproto.CanonicalMIMEHeaderKey "Example-Header" = "Example-Header"
  /\ textproto.CanonicalMIMEHeaderKey "x-FOO bar" = "x-FOO bar".
Proof. repeat split; reflexivity. Qed.

(** * Further properties of the package *)

(** ** Options *)

Lemma exported_flag_cases (p : Process) (f : Option) (st : SlogTripper) :
  exported f ->
  (f = CaptureRequestBody \/ captureRequestBody (f p st) = captureRequestBody st)
  /\ (f = CaptureResponseBody \/ captureResponseBody (f p st) = captureResponseBody st)
  /\ (f = CaptureRequestHeaders
      \/ captureRequestHeaders (f p st) = captureRequestHeaders st)
  /\ (f = CaptureResponseHeaders
      \/ captureResponseHeaders (f p st) = captureResponseHeaders st).
Proof. intros [l| | | | | |]; cbn; auto. Qed.

Lemma exported_flag_monotone (p : Process) (f : Option) (st : SlogTripper) :
  exported f ->
  (captureRequestBody st = true -> captureRequestBody (f p st) = true)
  /\ (captureResponseBody st = true -> captureResponseBody (f p st) = true)
  /\ (captureRequestHeaders st = true -> captureRequestHeaders (f p st) = true)
  /\ (captureResponseHeaders st = true -> captureResponseHeaders (f p st) = true).
Proof. intros [l| | | | | |]; cbn; auto. Qed.

Section FlagOfOption.

Variable p : Process.
Variable flag : SlogTripper -> bool.
Variable capture : Option.

Hypothesis capture_sets : forall st, flag (capture p st) = true.
Hypothesis others_keep :
  forall f st, exported f -> f = capture \/ flag (f p st) = flag st.
Hypothesis all_keep_set :
  forall f st, exported f -> flag st = true -> flag (f p st) = true.

Lemma fold_flag (opts : list Option) :
  Forall exported opts ->
  forall st,
    flag (fold_left (fun st f => f p st) opts st) = true
    <-> flag st = true \/ In capture opts.
Proof.
  induction 1 as [|f opts Hf _ IH]; intros st; cbn.
  - tauto.
  - rewrite IH. split.
    + intros [Hset | Hin]; [|tauto].
      destruct (others_keep f st Hf) as [-> | E]; [tauto|].
      rewrite E in Hset. tauto.
    + intros [Hset | [-> | Hin]]; [left; now apply all_keep_set | left | tauto].
      apply capture_sets.
Qed.

End FlagOfOption.

(** X1. A tripper built from exported options has a capture flag set
    exactly when the option of that flag is among the options: the flags
    start false, each [Capture...] option sets its own flag, and no option
    clears a flag or sets another one. *)
Theorem capture_flags_follow_options (p : Process) (opts : list Option) :
  Forall exported opts ->
  let st := NewSlogTripper p opts in
  (captureRequestBody st = true <-> In CaptureRequestBody opts)
  /\ (captureResponseBody st = true <-> In CaptureResponseBody opts)
  /\ (captureRequestHeaders st = true <-> In CaptureRequestHeaders opts)
  /\ (captureResponseHeaders st = true <-> In CaptureResponseHeaders opts).
Proof.
  intros Hopts st. subst st. unfold NewSlogTripper.
  assert (Hiff : forall (flag : SlogTripper -> bool) (capture : Option),
             (forall st, flag (capture p st) = true) ->
             (forall f st, exported f -> f = capture \/ flag (f p st) = flag st) ->
             (forall f st, exported f -> flag st = true -> flag (f p st) = true) ->
             forall st0, flag st0 = false ->
             (flag (fold_left (fun st f => f p st) opts st0) = true
              <-> In capture opts)).
  { intros flag capture H1 H2 H3 st0 H0.
    rewrite (fold_flag p flag capture H1 H2 H3 opts Hopts st0), H0.
    split; [intros [H | H]; [discriminate H | exact H] | now right]. }
  split; [|split; [|split]]; apply Hiff; try reflexivity;
    intros f st Hf; try apply (exported_flag_cases p f st Hf);
    apply (exported_flag_monotone p f st Hf).
Qed.

Lemma capture_flags_follow_options_witness :
  let opts := [CaptureRequestBody; WithLoggingLevel slog.LevelDebug;
               CaptureResponseHeaders] in
  let st := NewSlogTripper (sample_process (MockRoundTripper (fun _ => (None, None))))
              opts in
  (captureRequestBody st = true <-> In CaptureRequestBody opts)
  /\ (captureResponseBody st = true <-> In CaptureResponseBody opts)
  /\ (captureRequestHeaders st = true <-> In CaptureRequestHeaders opts)
  /\ (captureResponseHeaders st = true <-> In CaptureResponseHeaders opts).
Proof.
  intros opts st.
  apply (capture_flags_follow_options
           (sample_process (MockRoundTripper (fun _ => (None, None)))) opts).
  repeat constructor.
Defined.

Lemma exported_logger_cases (p : Process) (f : Option) (st : SlogTripper) :
  exported f ->
  logger (f p st) = logger st
  \/ logger (f p st) = Some (slog_Default p)
  \/ exists lg, f = WithLogger (Some lg) /\ logger (f p st) = Some lg.
Proof. intros [[lg|]| | | | | |]; cbn; eauto. Qed.

Lemma exported_delegate_cases (p : Process) (f : Option) (st : SlogTripper) :
  exported f ->
  proxyTransport (f p st) = proxyTransport st
  \/ proxyTransport (f p st) = DefaultTransport p
  \/ exists t, f = WithRoundTripper (Some t) /\ proxyTransport (f p st) = Some t.
Proof. intros [l| |[t|]| | | |]; cbn; eauto. Qed.

Lemma fold_logger (p : Process) (opts : list Option) :
  Forall exported opts ->
  forall st : SlogTripper,
    let st' := fold_left (fun st f => f p st) opts st in
    logger st' = logger st
    \/ logger st' = Some (slog_Default p)
    \/ exists lg, In (WithLogger (Some lg)) opts /\ logger st' = Some lg.
Proof.
  induction 1 as [|f opts Hf _ IH]; intros st; cbn; [auto|].
  destruct (IH (f p st)) as [E | [E | (lg & Hin & E)]].
  - rewrite E.
    destruct (exported_logger_cases p f st Hf) as [E' | [E' | (lg & -> & E')]];
      eauto 6.
  - auto.
  - eauto 6.
Qed.

Lemma fold_delegate (p : Process) (opts : list Option) :
  Forall exported opts ->
  forall st : SlogTripper,
    let st' := fold_left (fun st f => f p st) opts st in
    proxyTransport st' = proxyTransport st
    \/ proxyTransport st' = DefaultTransport p
    \/ exists t, In (WithRoundTripper (Some t)) opts /\ proxyTransport st' = Some t.
Proof.
  induction 1 as [|f opts Hf _ IH]; intros st; cbn; [auto|].
  destruct (IH (f p st)) as [E | [E | (t & Hin & E)]].
  - rewrite E.
    destruct (exported_delegate_cases p f st Hf) as [E' | [E' | (t & -> & E')]];
      eauto 6.
  - auto.
  - eauto 6.
Qed.

(** X2. A tripper built from exported options is never left with a nil
    logger: its logger is the process-wide default or one a [WithLogger]
    option supplied, so its log step cannot panic. Its delegate is the
    process-wide default transport or one a [WithRoundTripper] option
    supplied, so it is nil only if the process-wide default is. *)
Theorem NewSlogTripper_well_formed (p : Process) (opts : list Option) :
  Forall exported opts ->
  let st := NewSlogTripper p opts in
  (exists lg, logger st = Some lg
              /\ (lg = slog_Default p \/ In (WithLogger (Some lg)) opts))
  /\ can_log st = true
  /\ (proxyTransport st = DefaultTransport p
      \/ exists t, In (WithRoundTripper (Some t)) opts /\ proxyTransport st = Some t).
Proof.
  intros Hopts st. subst st. unfold NewSlogTripper.
  set (st0 := mkSlogTripper (T := RoundTripper) (Some (slog_Default p))
                slog.LevelInfo (DefaultTransport p) false false false false).
  assert (Hl : exists lg,
             logger (fold_left (fun st f => f p st) opts st0) = Some lg
             /\ (lg = slog_Default p \/ In (WithLogger (Some lg)) opts)).
  { destruct (fold_logger p opts Hopts st0) as [E | [E | (lg & Hin & E)]];
      rewrite E; eauto. }
  split; [exact Hl|]. split.
  - destruct Hl as (lg & E & _). unfold can_log. now rewrite E.
  - destruct (fold_delegate p opts Hopts st0) as [E | [E | (t & Hin & E)]];
      rewrite E; eauto.
Qed.

Lemma NewSlogTripper_well_formed_witness :
  let t := MockRoundTripper (fun _ => (None, None)) in
  let p := sample_process t in
  let opts := [WithLogger None; WithRoundTripper None; CaptureRequestBody;
               WithLogger (Some verbose_logger)] in
  let st := NewSlogTripper p opts in
  (exists lg, logger st = Some lg
              /\ (lg = slog_Default p \/ In (WithLogger (Some lg)) opts))
  /\ can_log st = true
  /\ (proxyTransport st = DefaultTransport p
      \/ exists t, In (WithRoundTripper (Some t)) opts /\ proxyTransport st = Some t).
Proof.
  intros t p opts st.
  apply (NewSlogTripper_well_formed p opts). repeat constructor.
Defined.

(** [WithLogger(nil)] and [WithRoundTripper(nil)] in front of the other
    options change nothing: the tripper is the one built without them (the
    set-up of [TestFaultySetup] is the default set-up), and so is every
    round trip through it. *)
Lemma nil_options_change_nothing (p : Process) (opts : list Option) :
  NewSlogTripper p (WithLogger None :: WithRoundTripper None :: opts)
  = NewSlogTripper p opts
  /\ NewSlogTripper p (WithRoundTripper None :: WithLogger None :: opts)
     = NewSlogTripper p opts
  /\ forall now req,
       RoundTrip (NewSlogTripper p (WithLogger None :: WithRoundTripper None :: opts))
         now req
       = RoundTrip (NewSlogTripper p opts) now req.
Proof. repeat split. Qed.

(** ** What the delegate receives and what the caller gets back *)

Lemma fresh_reader_same (rc : ReadCloser) :
  failure rc = None -> io_NopCloser (pending rc) = rc.
Proof. destruct rc as [b f]. cbn. now intros ->. Qed.

Lemma Request_set_Body_same (r : http.Request) (rc : ReadCloser) :
  http.Body r = Some rc -> http.Request_set_Body r (Some rc) = r.
Proof. destruct r. cbn. now intros ->. Qed.

Lemma Response_set_Body_same (rs : http.Response) (rc : ReadCloser) :
  http.ResponseBody rs = Some rc -> http.Response_set_Body rs (Some rc) = rs.
Proof. destruct rs. cbn. now intros ->. Qed.

(** The request handed to the delegate has the fields and the body content
    of the request that came in. *)
Lemma forwarded_same (st : SlogTripper) (req : option http.Request) :
  request_read_error st req = None -> forwarded st req = req.
Proof.
  unfold request_read_error, forwarded. destruct req as [r|]; [|reflexivity].
  destruct (captureRequestBody st); [|reflexivity].
  destruct (http.Body r) as [rc|] eqn:Hbody; [|reflexivity].
  cbn. intros Hok. now rewrite (fresh_reader_same rc Hok), Request_set_Body_same.
Qed.

Lemma RoundTrip_response_ok (st : SlogTripper) (start done : Time)
    (r : http.Request) (res : option http.Response) (err : option error) :
  returned_read_error st res = None ->
  exists responseGroup,
    RoundTrip_response st start done (Some r) res err
    = inr (responseGroup, res, EvClose <$> response_body_read st res).
Proof.
  unfold returned_read_error, response_read_error, RoundTrip_response,
    response_body_read.
  destruct res as [rs|]; [|eauto].
  destruct (captureResponseBody st).
  - destruct (http.ResponseBody rs) as [rc|] eqn:Hbody.
    + cbn. intros Hok. rewrite Hok.
      rewrite (fresh_reader_same rc Hok), (Response_set_Body_same rs rc Hbody).
      repeat case_match; eauto.
    + intros _. repeat case_match; eauto.
  - intros _. repeat case_match; eauto.
Qed.

(** The outcome of a call in which nothing fails: the request is not nil,
    both body reads (where bodies are read) succeed, the delegate returns
    and the log step has a logger. *)
Lemma RoundTrip_returns (st : SlogTripper) (t : RoundTripper) (now : Time)
    (r : http.Request) (res : option http.Response) (err : option error) :
  proxyTransport st = Some t ->
  request_read_error st (Some r) = None ->
  let d := RoundTripper_RoundTrip t now (Some r) in
  result d = Return res err ->
  returned_read_error st res = None ->
  can_log st = true ->
  let r' := match request_after d with Some r' => r' | None => r end in
  exists requestGroup responseGroup logged,
    RoundTrip_request st now (Some r)
    = inr (requestGroup, Some r, EvClose <$> request_body_read st (Some r))
    /\ RoundTrip_response st now (finished d) (Some r') res err
       = inr (responseGroup, res, EvClose <$> response_body_read st res)
    /\ log st (http.Request_Context r') "HTTP Request"
         [slog.Group "request" requestGroup; slog.Group "response" responseGroup]
       = inr logged
    /\ RoundTrip st now (Some r)
       = mkOutcome (Return res err)
           (request_after_read st (same_body d) (Some r') res)
           ((EvClose <$> request_body_read st (Some r))
            ++ [EvRoundTrip (Some r) (events d)]
            ++ (EvClose <$> response_body_read st res) ++ logged)
           (finished d)
           (match response_reader st res with
            | Some _ => false
            | None => same_body d
            end).
Proof.
  intros Ht Hreq d Hd Hres Hlog r'.
  destruct (RoundTrip_request_forwards st now (Some r) Hreq) as [g Hg].
  rewrite (forwarded_same st (Some r) Hreq) in Hg.
  destruct (RoundTrip_response_ok st now (finished d) r' res err Hres) as [g' Hg'].
  destruct (log_can_log st (http.Request_Context r') "HTTP Request"
              [slog.Group "request" g; slog.Group "response" g'] Hlog)
    as [logged Hlogged].
  exists g, g', logged. repeat split; try assumption.
  rewrite RoundTrip_unfold. unfold RoundTrip_body.
  rewrite Hg, Ht. cbv zeta. fold d. rewrite Hd.
  replace (match request_after d with Some r'0 => Some r'0 | None => Some r end)
    with (Some r') by (subst r'; now destruct (request_after d)).
  rewrite Hg', Hlogged. now rewrite <- app_assoc.
Qed.

(** X3. With any setting of the capture flags: when the request is not nil,
    the body reads succeed, the delegate returns and the log step has a
    logger, [RoundTrip] calls the delegate once with a request that has the
    fields and the body content of the one that came in, returns the
    delegate's error next to a response with the fields and the body
    content of the delegate's, emits at most one record, and has closed
    exactly the bodies it read. *)
Theorem RoundTrip_passes_through (st : SlogTripper) (t : RoundTripper) (now : Time)
    (r : http.Request) (res : option http.Response) (err : option error) :
  proxyTransport st = Some t ->
  request_read_error st (Some r) = None ->
  result (RoundTripper_RoundTrip t now (Some r)) = Return res err ->
  returned_read_error st res = None ->
  can_log st = true ->
  let o := RoundTrip st now (Some r) in
  result o = Return res err
  /\ delegate_calls (events o) = [Some r]
  /\ closed_bodies (events o)
     = request_body_read st (Some r) ++ response_body_read st res
  /\ (length (own_records (events o)) <= 1)%nat.
Proof.
  intros Ht Hreq Hd Hres Hlog o. subst o.
  destruct (RoundTrip_returns st t now r res err Ht Hreq Hd Hres Hlog)
    as (g & g' & logged & _ & _ & Hlogged & ->).
  cbn [result events].
  rewrite !delegate_calls_app, !closed_bodies_app, !own_records_app.
  rewrite !(proj1 (closes_only _)), !(proj1 (proj2 (closes_only _))),
    !(proj2 (proj2 (closes_only _))).
  destruct (log_events _ _ _ _ _ Hlogged) as [-> | [rec ->]]; cbn;
    rewrite ?app_nil_r; repeat split; lia.
Qed.

Lemma RoundTrip_passes_through_witness :
  let rs := sample_response (Some {[ "Content-Type" := ["text/plain"] ]})
              (Some (io_NopCloser "pong")) in
  let t := MockRoundTripper (fun _ => (Some rs, Some "late")) in
  let st := NewSlogTripper (sample_process t)
              [CaptureRequestBody; CaptureResponseBody; CaptureRequestHeaders;
               CaptureResponseHeaders] in
  let r := http_NewRequest "POST" "http://localhost/" (Some "hello") in
  let o := RoundTrip st 0 (Some r) in
  result o = Return (Some rs) (Some "late")
  /\ delegate_calls (events o) = [Some r]
  /\ closed_bodies (events o) = [io_NopCloser "hello"; io_NopCloser "pong"]
  /\ (length (own_records (events o)) <= 1)%nat.
Proof.
  intros rs t st r o.
  apply (RoundTrip_passes_through st t 0 r (Some rs) (Some "late")); reflexivity.
Defined.

(** X4. [RoundTrip] never calls the delegate twice: it calls it once, with
    the request as it came in, when the request body (if it is read) reads
    without error and there is a delegate, and not at all otherwise. *)
Theorem delegate_called_at_most_once (st : SlogTripper) (now : Time)
    (req : option http.Request) :
  delegate_calls (events (RoundTrip st now req))
  = match request_read_error st req, proxyTransport st with
    | None, Some _ => [req]
    | _, _ => []
    end.
Proof.
  destruct (request_read_error st req) as [e|] eqn:Hreq.
  - rewrite RoundTrip_unfold. unfold RoundTrip_body.
    now destruct (RoundTrip_request_fails st now req e Hreq) as [req' ->].
  - destruct (proxyTransport st) as [t|] eqn:Ht.
    + rewrite (RoundTrip_calls_delegate_once st t now req Ht Hreq).
      now rewrite forwarded_same.
    + rewrite RoundTrip_unfold. unfold RoundTrip_body.
      destruct (RoundTrip_request_forwards st now req Hreq) as [g ->].
      rewrite Ht. cbn [events]. apply closes_only.
Qed.

(** A panic of the delegate is the panic of the call. *)
Lemma delegate_panic_propagates (st : SlogTripper) (t : RoundTripper) (now : Time)
    (req : option http.Request) (pn : Panic) :
  proxyTransport st = Some t ->
  request_read_error st req = None ->
  result (RoundTripper_RoundTrip t now req) = Panicked pn ->
  result (RoundTrip st now req) = Panicked pn.
Proof.
  intros Ht Hreq Hd. rewrite RoundTrip_unfold. unfold RoundTrip_body.
  destruct (RoundTrip_request_forwards st now req Hreq) as [g ->].
  rewrite (forwarded_same st req Hreq), Ht. cbv zeta. now rewrite Hd.
Qed.

(** X5. Without a delegate (a nil [proxyTransport], which a constructed
    tripper has only when the process-wide default transport is nil) the
    call panics at line 151, after the request phase: a captured request
    body has been read and closed by then, and no record is emitted. *)
Theorem nil_delegate_panics (st : SlogTripper) (now : Time)
    (req : option http.Request) :
  proxyTransport st = None ->
  request_read_error st req = None ->
  let o := RoundTrip st now req in
  result o = Panicked (NilDereference "st.proxyTransport")
  /\ own_records (events o) = []
  /\ closed_bodies (events o) = request_body_read st req.
Proof.
  intros Ht Hreq o. subst o. rewrite RoundTrip_unfold. unfold RoundTrip_body.
  destruct (RoundTrip_request_forwards st now req Hreq) as [g ->].
  rewrite Ht. cbn [result events].
  repeat split; apply closes_only.
Qed.

Lemma nil_delegate_panics_witness :
  let p := mkProcess None sample_logger false in
  let st := NewSlogTripper p [CaptureRequestBody; WithRoundTripper None] in
  let r := http_NewRequest "POST" "http://localhost/" (Some "hello") in
  let o := RoundTrip st 0 (Some r) in
  result o = Panicked (NilDereference "st.proxyTransport")
  /\ own_records (events o) = []
  /\ closed_bodies (events o) = [io_NopCloser "hello"].
Proof.
  intros p st r o.
  apply (nil_delegate_panics st 0 (Some r)); reflexivity.
Defined.

(** ** Bodies closed and records emitted *)

Lemma RoundTrip_response_closes (st : SlogTripper) (start done : Time)
    (req : option http.Request) (res : option http.Response) (err : option error) :
  exists bodies,
    (forall b, In b bodies ->
               returned_read_error st res = None /\ In b (response_body_read st res))
    /\ match RoundTrip_response st start done req res err with
       | inl (_, evs) => evs = EvClose <$> bodies
       | inr (_, _, evs) => evs = EvClose <$> bodies
       end.
Proof.
  unfold RoundTrip_response, returned_read_error, response_read_error,
    response_body_read.
  destruct res as [rs|]; [|exists []; split; [intros b []|reflexivity]].
  destruct (if captureResponseBody st then http.ResponseBody rs else None) as [rc|].
  - cbn. destruct (failure rc) as [e|].
    + exists []. split; [intros b []|reflexivity].
    + exists [rc]. split; [intros b Hb; split; [reflexivity|exact Hb]|].
      repeat case_match; simplify_eq; reflexivity.
  - exists []. split; [intros b []|]. repeat case_match; simplify_eq; reflexivity.
Qed.

(** The events of a call that reaches the delegate, with the bodies the
    response phase closed and the record of the log step told apart. *)
Lemma RoundTrip_events_full (st : SlogTripper) (t : RoundTripper) (now : Time)
    (req : option http.Request) :
  proxyTransport st = Some t ->
  request_read_error st req = None ->
  let d := RoundTripper_RoundTrip t now req in
  exists bodies logged,
    events (RoundTrip st now req)
    = (EvClose <$> request_body_read st req)
      ++ [EvRoundTrip req (events d)] ++ (EvClose <$> bodies) ++ logged
    /\ (forall b, In b bodies ->
                  exists res err,
                    result d = Return res err
                    /\ returned_read_error st res = None
                    /\ In b (response_body_read st res))
    /\ (logged = []
        \/ exists rec r' res err g g' res' evs evs',
             logged = [EvLog rec]
             /\ req <> None
             /\ result d = Return res err
             /\ RoundTrip_request st now req = inr (g, req, evs)
             /\ RoundTrip_response st now (finished d) (Some r') res err
                = inr (g', res', evs')
             /\ log st (http.Request_Context r') "HTTP Request"
                  [slog.Group "request" g; slog.Group "response" g']
                = inr [EvLog rec]).
Proof.
  intros Ht Hreq d. rewrite RoundTrip_unfold. unfold RoundTrip_body.
  destruct (RoundTrip_request_forwards st now req Hreq) as [g Hg].
  rewrite (forwarded_same st req Hreq) in Hg. rewrite Hg, Ht. cbv zeta. fold d.
  set (req' := match req with
               | Some _ => match request_after d with
                           | Some r' => Some r'
                           | None => req
                           end
               | None => req
               end).
  assert (Hnn : req' <> None -> req <> None).
  { subst req'. destruct req; congruence. }
  destruct (result d) as [res err|pn] eqn:Hd.
  - destruct (RoundTrip_response_closes st now (finished d) req' res err)
      as (bodies & Hbodies & Hev).
    assert (Hb : forall b, In b bodies ->
                 exists res0 err0, Return res err = Return res0 err0
                                   /\ returned_read_error st res0 = None
                                   /\ In b (response_body_read st res0)).
    { intros b Hin. exists res, err. split; [reflexivity|]. now apply Hbodies. }
    destruct (RoundTrip_response st now (finished d) req' res err)
      as [[early evs']|[[g' res'] evs']] eqn:Hresp; subst evs'.
    + exists bodies, []. cbn [events]. rewrite app_nil_r, <- app_assoc. auto.
    + destruct req' as [r'|].
      * destruct (log st _ _ _) as [pn|logged] eqn:El; cbn [events].
        -- exists bodies, []. rewrite app_nil_r, <- app_assoc. auto.
        -- exists bodies, logged. rewrite <- app_assoc.
           split; [reflexivity|]. split; [exact Hb|].
           destruct (log_events _ _ _ _ _ El) as [-> | [rec ->]]; [now left|].
           right. exists rec, r', res, err, g, g', res'.
           assert (req <> None) by (apply Hnn; discriminate). eauto 10.
      * exists bodies, []. cbn [events]. rewrite app_nil_r, <- app_assoc. auto.
  - exists [], []. cbn [events]. split; [reflexivity|].
    split; [intros b []|now left].
Qed.

(** X6. [RoundTrip] closes a body only after it has read it to the end
    without error: every body it closes is the request body, read under
    request-body capture, or the body of the response the delegate
    returned, read under response-body capture. A body whose read fails is
    left open, and with both body captures off nothing is closed. *)
Theorem closes_only_bodies_it_read (st : SlogTripper) (now : Time)
    (req : option http.Request) (b : ReadCloser) :
  In b (closed_bodies (events (RoundTrip st now req))) ->
  failure b = None
  /\ ((captureRequestBody st = true
       /\ exists r, req = Some r /\ http.Body r = Some b)
      \/ (captureResponseBody st = true
          /\ exists t rs err,
               proxyTransport st = Some t
               /\ result (RoundTripper_RoundTrip t now req) = Return (Some rs) err
               /\ http.ResponseBody rs = Some b)).
Proof.
  assert (Hrq : request_read_error st req = None ->
                In b (request_body_read st req) ->
                failure b = None
                /\ captureRequestBody st = true
                /\ exists r, req = Some r /\ http.Body r = Some b).
  { unfold request_read_error, request_body_read.
    destruct req as [r|]; [|intros _ []].
    destruct (captureRequestBody st); [|intros _ []].
    destruct (http.Body r) as [rc|] eqn:Hbody; [|intros _ []].
    cbn. intros Hok [<- | []]. split; [exact Hok|]. split; [reflexivity|]. eauto. }
  assert (Hrs : forall res, returned_read_error st res = None ->
                In b (response_body_read st res) ->
                failure b = None
                /\ captureResponseBody st = true
                /\ exists rs, res = Some rs /\ http.ResponseBody rs = Some b).
  { unfold returned_read_error, response_read_error, response_body_read.
    intros [rs|]; [|intros _ []].
    destruct (captureResponseBody st); [|intros _ []].
    destruct (http.ResponseBody rs) as [rc|] eqn:Hbody; [|intros _ []].
    cbn. intros Hok [<- | []]. split; [exact Hok|]. split; [reflexivity|]. eauto. }
  destruct (request_read_error st req) as [e|] eqn:Hreq.
  - rewrite RoundTrip_unfold. unfold RoundTrip_body.
    destruct (RoundTrip_request_fails st now req e Hreq) as [req' ->].
    intros [].
  - specialize (Hrq eq_refl).
    destruct (proxyTransport st) as [t|] eqn:Ht.
    + destruct (RoundTrip_events_full st t now req Ht Hreq)
        as (bodies & logged & -> & Hbodies & Hl).
      rewrite !closed_bodies_app, !(proj2 (proj2 (closes_only _))).
      replace (closed_bodies logged) with (@nil ReadCloser)
        by (destruct Hl as [-> | (rec & ? & ? & ? & ? & ? & ? & ? & ? & -> & _)];
            reflexivity).
      cbn. rewrite app_nil_r. intros Hin. apply in_app_or in Hin as [Hin | Hin].
      * destruct (Hrq Hin) as (Hf & Hc & Hr). auto.
      * destruct (Hbodies b Hin) as (res & err & Hd & Hok & Hin').
        destruct (Hrs res Hok Hin') as (Hf & Hc & rs & -> & Hbody).
        split; [exact Hf|]. right. split; [exact Hc|]. eauto 6.
    + rewrite RoundTrip_unfold. unfold RoundTrip_body.
      destruct (RoundTrip_request_forwards st now req Hreq) as [g ->].
      rewrite Ht. cbn [events]. rewrite (proj2 (proj2 (closes_only _))).
      intros Hin. destruct (Hrq Hin) as (Hf & Hc & Hr). auto.
Qed.

Lemma closes_only_bodies_it_read_witness :
  let rs := sample_response None (Some ErrorReadCloser) in
  let t := MockRoundTripper (fun _ => (Some rs, None)) in
  let st := NewSlogTripper (sample_process t) [CaptureRequestBody; CaptureResponseBody] in
  let r := http_NewRequest "POST" "http://localhost/" (Some "hello") in
  closed_bodies (events (RoundTrip st 0 (Some r))) = [io_NopCloser "hello"]
  /\ failure (io_NopCloser "hello") = None.
Proof.
  intros rs t st r. split; [reflexivity|].
  apply (closes_only_bodies_it_read st 0 (Some r) (io_NopCloser "hello")).
  now left.
Defined.

(** *** Groups without attributes *)

Lemma omit_empty_groups_app (a b : list slog.Attr) :
  slog.omit_empty_groups (a ++ b)
  = slog.omit_empty_groups a ++ slog.omit_empty_groups b.
Proof. apply List.filter_app. Qed.

Lemma header_attrs_no_group (h : gmap string (list string)) (values : http.Header) :
  slog.omit_empty_groups (header_attrs h values) = header_attrs h values.
Proof.
  unfold header_attrs. induction (http.Header_names h) as [|name names IH];
    [reflexivity|].
  cbn. f_equal. exact IH.
Qed.

Lemma headers_group_kept (h : gmap string (list string)) (values : http.Header) :
  Nat.eqb (length (header_attrs h values)) 0 = false ->
  slog.omit_empty_groups [slog.Group "headers" (header_attrs h values)]
  = [slog.Group "headers" (header_attrs h values)]
  /\ slog.Group "headers" (header_attrs h values)
     = slog.mkAttr "headers" (slog.GroupValue (header_attrs h values)).
Proof.
  intros Hne. unfold slog.Group. rewrite header_attrs_no_group.
  destruct (header_attrs h values); [discriminate|]. split; reflexivity.
Qed.

(** The groups [RoundTrip] builds hold no empty group, and the request
    group is never empty. *)
Lemma RoundTrip_request_group_clean (st : SlogTripper) (start : Time)
    (req : option http.Request) (g : list slog.Attr) (req' : option http.Request)
    (evs : list Event) :
  RoundTrip_request st start req = inr (g, req', evs) ->
  slog.omit_empty_groups g = g /\ g <> [].
Proof.
  unfold RoundTrip_request. destruct req as [r|];
    [|intros Hg; simplify_eq; split; [reflexivity|discriminate]].
  destruct (if captureRequestBody st then http.Body r else None) as [rc|].
  - cbn -[header_attrs slog.omit_empty_groups].
    destruct (failure rc); [discriminate|].
    change (http.Header_ (http.Request_set_Body r ?b)) with (http.Header_ r).
    destruct (if captureRequestHeaders st then http.Header_ r else None) as [h|];
      [destruct (Nat.eqb (length (header_attrs h (http.Header_ r))) 0) eqn:Hne|];
      intros Hg; simplify_eq;
      rewrite ?omit_empty_groups_app;
      try rewrite (proj1 (headers_group_kept h (http.Header_ r) Hne));
      destruct (http.URL r); split; try reflexivity; discriminate.
  - cbn -[header_attrs slog.omit_empty_groups].
    destruct (if captureRequestHeaders st then http.Header_ r else None) as [h|];
      [destruct (Nat.eqb (length (header_attrs h (http.Header_ r))) 0) eqn:Hne|];
      intros Hg; simplify_eq;
      rewrite ?omit_empty_groups_app;
      try rewrite (proj1 (headers_group_kept h (http.Header_ r) Hne));
      destruct (http.URL r); split; try reflexivity; discriminate.
Qed.

(** The response group holds no empty group either, and is empty exactly
    when the delegate returned neither a response nor an error. *)
Lemma RoundTrip_response_group_clean (st : SlogTripper) (start done : Time)
    (r : http.Request) (res : option http.Response) (err : option error)
    (g : list slog.Attr) (res' : option http.Response) (evs : list Event) :
  RoundTrip_response st start done (Some r) res err = inr (g, res', evs) ->
  slog.omit_empty_groups g = g
  /\ (g = [] <-> res = None /\ err = None).
Proof.
  unfold RoundTrip_response. destruct res as [rs|].
  2:{ intros Hg. simplify_eq. destruct err; split; try reflexivity;
        split; try discriminate; intuition congruence. }
  destruct (if captureResponseBody st then http.ResponseBody rs else None) as [rc|].
  - cbn -[header_attrs slog.omit_empty_groups].
    destruct (failure rc); [discriminate|].
    change (http.ResponseHeader (http.Response_set_Body rs ?b))
      with (http.ResponseHeader rs).
    destruct (if captureResponseHeaders st then http.ResponseHeader rs else None)
      as [h|];
      [destruct (Nat.eqb (length (header_attrs h (http.Header_ r))) 0) eqn:Hne|];
      intros Hg; simplify_eq;
      rewrite ?omit_empty_groups_app;
      try rewrite (proj1 (headers_group_kept h (http.Header_ r) Hne));
      destruct err; (split; [reflexivity|]); split;
      try discriminate; intros [? ?]; discriminate.
  - cbn -[header_attrs slog.omit_empty_groups].
    destruct (if captureResponseHeaders st then http.ResponseHeader rs else None)
      as [h|];
      [destruct (Nat.eqb (length (header_attrs h (http.Header_ r))) 0) eqn:Hne|];
      intros Hg; simplify_eq;
      rewrite ?omit_empty_groups_app;
      try rewrite (proj1 (headers_group_kept h (http.Header_ r) Hne));
      destruct err; (split; [reflexivity|]); split;
      try discriminate; intros [? ?]; discriminate.
Qed.

(** What [Record.Add] keeps of the two groups of line 195. *)
Lemma record_groups (g g' : list slog.Attr) :
  slog.omit_empty_groups g = g -> g <> [] ->
  slog.omit_empty_groups g' = g' ->
  slog.omit_empty_groups [slog.Group "request" g; slog.Group "response" g']
  = slog.mkAttr "request" (slog.GroupValue g)
    :: match g' with
       | [] => []
       | _ :: _ => [slog.mkAttr "response" (slog.GroupValue g')]
       end.
Proof.
  intros Hg Hne Hg'. unfold slog.Group. rewrite Hg, Hg'.
  destruct g as [|a g]; [contradiction|]. destruct g'; reflexivity.
Qed.

Lemma log_record {T} (st : SlogTripperOf T) (c : Context) (msg : string)
    (args : list slog.Attr) (rec : slog.Record) :
  log st c msg args = inr [EvLog rec] ->
  exists lg,
    logger st = Some lg
    /\ slog.Enabled lg (logAtLevel st) = true
    /\ (logAtLevel st = slog.LevelDebug \/ logAtLevel st = slog.LevelInfo)
    /\ rec = slog.mkRecord (slog.sink lg) c (logAtLevel st) msg
               (slog.omit_empty_groups args).
Proof.
  unfold log, DebugContext, InfoContext, Logger_log. intros H.
  destruct (Z.eqb_spec (logAtLevel st) slog.LevelDebug) as [E|_];
    [|destruct (Z.eqb_spec (logAtLevel st) slog.LevelInfo) as [E|_];
      [|discriminate]];
    destruct (logger st) as [lg|]; try discriminate;
    destruct (slog.Enabled lg _) eqn:Hen; try discriminate;
    exists lg; rewrite E; simplify_eq; auto.
Qed.

Lemma RoundTrip_response_inr (st : SlogTripper) (start done : Time)
    (req : option http.Request) (res : option http.Response) (err : option error)
    (out : list slog.Attr * option http.Response * list Event) :
  RoundTrip_response st start done req res err = inr out ->
  returned_read_error st res = None.
Proof.
  unfold RoundTrip_response, returned_read_error, response_read_error.
  destruct res as [rs|]; [|reflexivity].
  destruct (if captureResponseBody st then http.ResponseBody rs else None) as [rc|];
    [|reflexivity].
  cbn. destruct (failure rc); [discriminate|reflexivity].
Qed.

(** X7. A call emits at most one record. A record it emits has the message
    [HTTP Request], the level the tripper is configured with (debug or
    info), went to the tripper's own logger, which has that level enabled,
    and carries the group [request], which is never empty, followed by the
    group [response] unless that group has no attribute (log/slog leaves an
    empty group out of the record); and it is emitted only by a call that
    got through: the request is not nil, the delegate returned, and no body
    read failed. *)
Theorem record_of_a_call (st : SlogTripper) (now : Time)
    (req : option http.Request) (rec : slog.Record) :
  In rec (own_records (events (RoundTrip st now req))) ->
  own_records (events (RoundTrip st now req)) = [rec]
  /\ slog.record_msg rec = "HTTP Request"
  /\ slog.record_level rec = logAtLevel st
  /\ (logAtLevel st = slog.LevelDebug \/ logAtLevel st = slog.LevelInfo)
  /\ (exists lg, logger st = Some lg
                 /\ slog.record_sink rec = slog.sink lg
                 /\ slog.Enabled lg (logAtLevel st) = true)
  /\ (exists g g',
        g <> []
        /\ slog.record_attrs rec
           = slog.mkAttr "request" (slog.GroupValue g)
             :: match g' with
                | [] => []
                | _ :: _ => [slog.mkAttr "response" (slog.GroupValue g')]
                end)
  /\ (exists t res err,
        req <> None
        /\ request_read_error st req = None
        /\ proxyTransport st = Some t
        /\ result (RoundTripper_RoundTrip t now req) = Return res err
        /\ returned_read_error st res = None).
Proof.
  destruct (request_read_error st req) as [e|] eqn:Hreq.
  { rewrite RoundTrip_unfold. unfold RoundTrip_body.
    destruct (RoundTrip_request_fails st now req e Hreq) as [req' ->].
    intros []. }
  destruct (proxyTransport st) as [t|] eqn:Ht.
  2:{ rewrite RoundTrip_unfold. unfold RoundTrip_body.
      destruct (RoundTrip_request_forwards st now req Hreq) as [g ->].
      rewrite Ht. cbn [events]. rewrite (proj1 (closes_only _)). intros []. }
  destruct (RoundTrip_events_full st t now req Ht Hreq)
    as (bodies & logged & -> & _ & Hl).
  rewrite !own_records_app, !(proj1 (closes_only _)). cbn.
  destruct Hl as [-> | (rec' & r' & res & err & g & g' & res' & evs & evs'
                        & -> & Hnn & Hd & Hg & Hg' & Hlog)]; [intros []|].
  cbn. intros [<- | []].
  destruct (log_record _ _ _ _ _ Hlog) as (lg & Hlg & Hen & Hlevel & ->).
  destruct (RoundTrip_request_group_clean _ _ _ _ _ _ Hg) as [Hclean Hne].
  destruct (RoundTrip_response_group_clean _ _ _ _ _ _ _ _ _ Hg') as [Hclean' _].
  cbn [slog.record_msg slog.record_level slog.record_sink slog.record_attrs].
  rewrite (record_groups g g' Hclean Hne Hclean').
  repeat split; eauto.
  exists t, res, err. repeat split; auto.
  now apply RoundTrip_response_inr in Hg'.
Qed.

Lemma record_of_a_call_witness :
  let rs := sample_response None (Some (io_NopCloser "pong")) in
  let t := MockRoundTripper (fun _ => (Some rs, None)) in
  let st := NewSlogTripper (sample_process t) [CaptureResponseBody] in
  let req := Some (http_NewRequest "GET" "http://localhost/" None) in
  exists rec,
    own_records (events (RoundTrip st 0 req)) = [rec]
    /\ slog.record_msg rec = "HTTP Request"
    /\ slog.record_level rec = slog.LevelInfo.
Proof.
  intros rs t st req.
  eexists.
  refine (let H := record_of_a_call st 0 req _ _ in
          conj (proj1 H) (conj (proj1 (proj2 H)) (proj1 (proj2 (proj2 H))))).
  vm_compute. left. reflexivity.
Defined.

(** X8. The logger's filter decides about the record and about nothing
    else: in a call that gets through, at a level [log] has a case for, the
    logger receives exactly one record when it has the level enabled and
    none when it has not, and the call returns the delegate's pair either
    way. *)
Theorem logger_filter_decides (st : SlogTripper) (t : RoundTripper)
    (lg : slog.Logger) (now : Time) (r : http.Request)
    (res : option http.Response) (err : option error) :
  proxyTransport st = Some t ->
  request_read_error st (Some r) = None ->
  result (RoundTripper_RoundTrip t now (Some r)) = Return res err ->
  returned_read_error st res = None ->
  logger st = Some lg ->
  logAtLevel st = slog.LevelDebug \/ logAtLevel st = slog.LevelInfo ->
  let o := RoundTrip st now (Some r) in
  result o = Return res err
  /\ length (own_records (events o))
     = (if slog.Enabled lg (logAtLevel st) then 1 else 0)%nat.
Proof.
  intros Ht Hreq Hd Hres Hlg Hlevel o. subst o.
  assert (Hcan : can_log st = true) by (unfold can_log; now rewrite Hlg).
  destruct (RoundTrip_returns st t now r res err Ht Hreq Hd Hres Hcan)
    as (g & g' & logged & _ & _ & Hlogged & ->).
  cbn [result events]. split; [reflexivity|].
  rewrite !own_records_app, !(proj1 (closes_only _)). cbn.
  destruct (slog.Enabled lg (logAtLevel st)) eqn:Hen.
  - rewrite (log_emits_when_enabled st lg _ _ _ Hlg Hlevel Hen) in Hlogged.
    now simplify_eq.
  - destruct (log_events _ _ _ _ _ Hlogged) as [-> | [rec ->]]; [reflexivity|].
    destruct (log_record _ _ _ _ _ Hlogged) as (lg' & Hlg' & Hen' & _).
    congruence.
Qed.

Lemma logger_filter_decides_witness :
  let rs := sample_response None None in
  let t := MockRoundTripper (fun _ => (Some rs, None)) in
  let r := http_NewRequest "GET" "http://localhost/" None in
  let quiet := NewSlogTripper (sample_process t) [WithLoggingLevel slog.LevelDebug] in
  let loud := NewSlogTripper (sample_process t)
                [WithLoggingLevel slog.LevelDebug; WithLogger (Some verbose_logger)] in
  (result (RoundTrip quiet 0 (Some r)) = Return (Some rs) None
   /\ length (own_records (events (RoundTrip quiet 0 (Some r)))) = 0%nat)
  /\ (result (RoundTrip loud 0 (Some r)) = Return (Some rs) None
      /\ length (own_records (events (RoundTrip loud 0 (Some r)))) = 1%nat).
Proof.
  intros rs t r quiet loud. split.
  - apply (logger_filter_decides quiet t sample_logger 0 r (Some rs) None);
      try reflexivity. now left.
  - apply (logger_filter_decides loud t verbose_logger 0 r (Some rs) None);
      try reflexivity. now left.
Defined.

(** ** The layout of a record *)

Lemma RoundTrip_request_keys (st : SlogTripper) (start : Time) (r : http.Request)
    (g : list slog.Attr) (req' : option http.Request) (evs : list Event) :
  RoundTrip_request st start (Some r) = inr (g, req', evs) ->
  attr_keys g = request_keys st r.
Proof.
  unfold RoundTrip_request, request_keys, attr_keys.
  destruct (if captureRequestBody st then http.Body r else None) as [rc|].
  - cbn -[header_attrs]. destruct (failure rc); [discriminate|].
    change (http.Header_ (http.Request_set_Body r ?b)) with (http.Header_ r).
    destruct (if captureRequestHeaders st then http.Header_ r else None) as [h|];
      [rewrite header_attrs_empty; destruct (bool_decide (h = ∅))|];
      intros H; simplify_eq; destruct (http.URL r); reflexivity.
  - cbn -[header_attrs].
    destruct (if captureRequestHeaders st then http.Header_ r else None) as [h|];
      [rewrite header_attrs_empty; destruct (bool_decide (h = ∅))|];
      intros H; simplify_eq; destruct (http.URL r); reflexivity.
Qed.

Lemma RoundTrip_response_keys (st : SlogTripper) (start done : Time)
    (r : http.Request) (res : option http.Response) (err : option error)
    (g : list slog.Attr) (res' : option http.Response) (evs : list Event) :
  RoundTrip_response st start done (Some r) res err = inr (g, res', evs) ->
  attr_keys g = response_keys st res err.
Proof.
  unfold RoundTrip_response, response_keys, attr_keys.
  destruct res as [rs|];
    [|intros H; simplify_eq; destruct err; reflexivity].
  destruct (if captureResponseBody st then http.ResponseBody rs else None) as [rc|].
  - cbn -[header_attrs]. destruct (failure rc); [discriminate|].
    change (http.ResponseHeader (http.Response_set_Body rs ?b))
      with (http.ResponseHeader rs).
    destruct (if captureResponseHeaders st then http.ResponseHeader rs else None)
      as [h|];
      [rewrite header_attrs_empty; destruct (bool_decide (h = ∅))|];
      intros H; simplify_eq; destruct err; reflexivity.
  - cbn -[header_attrs].
    destruct (if captureResponseHeaders st then http.ResponseHeader rs else None)
      as [h|];
      [rewrite header_attrs_empty; destruct (bool_decide (h = ∅))|];
      intros H; simplify_eq; destruct err; reflexivity.
Qed.

Lemma RoundTrip_request_starts (st : SlogTripper) (start : Time)
    (req : option http.Request) (g : list slog.Attr) (req' : option http.Request)
    (evs : list Event) :
  RoundTrip_request st start req = inr (g, req', evs) ->
  head g = Some (slog.Time "started_at" start).
Proof.
  unfold RoundTrip_request. destruct req as [r|]; [|intros Hg; now simplify_eq].
  repeat case_match; intros Hg; simplify_eq; reflexivity.
Qed.

(** X9. The layout of a record. Its request group starts with [started_at],
    the clock when the call began, and has the keys [started_at], [method],
    [content_length], [proto], then [url] when the request has a URL,
    [body_content] when the request body was captured and [headers] when
    request headers were captured and there is one. Its response group has
    [error] when the delegate returned an error; when the delegate returned
    a response it goes on with [status], [status_code], [content_length],
    [time_taken], [content_type], then [body_content] and [headers] under
    the like conditions; when the delegate returned no response the group
    holds the error alone, and when it returned neither response nor error
    the group has no attribute and the record, from which log/slog leaves
    an empty group out, holds the request group only. *)
Theorem record_layout (st : SlogTripper) (now : Time) (r : http.Request)
    (rec : slog.Record) :
  In rec (own_records (events (RoundTrip st now (Some r)))) ->
  exists t res err g g',
    proxyTransport st = Some t
    /\ result (RoundTripper_RoundTrip t now (Some r)) = Return res err
    /\ slog.record_attrs rec
       = slog.mkAttr "request" (slog.GroupValue g)
         :: match res, err with
            | None, None => []
            | _, _ => [slog.mkAttr "response" (slog.GroupValue g')]
            end
    /\ head g = Some (slog.Time "started_at" now)
    /\ attr_keys g = request_keys st r
    /\ attr_keys g' = response_keys st res err.
Proof.
  destruct (request_read_error st (Some r)) as [e|] eqn:Hreq.
  { rewrite RoundTrip_unfold. unfold RoundTrip_body.
    destruct (RoundTrip_request_fails st now (Some r) e Hreq) as [req' ->].
    intros []. }
  destruct (proxyTransport st) as [t|] eqn:Ht.
  2:{ rewrite RoundTrip_unfold. unfold RoundTrip_body.
      destruct (RoundTrip_request_forwards st now (Some r) Hreq) as [g ->].
      rewrite Ht. cbn [events]. rewrite (proj1 (closes_only _)). intros []. }
  destruct (RoundTrip_events_full st t now (Some r) Ht Hreq)
    as (bodies & logged & -> & _ & Hl).
  rewrite !own_records_app, !(proj1 (closes_only _)). cbn.
  destruct Hl as [-> | (rec' & r' & res & err & g & g' & res' & evs & evs'
                        & -> & Hnn & Hd & Hg & Hg' & Hlog)]; [intros []|].
  cbn. intros [<- | []].
  destruct (log_record _ _ _ _ _ Hlog) as (lg & _ & _ & _ & ->).
  destruct (RoundTrip_request_group_clean _ _ _ _ _ _ Hg) as [Hclean Hne].
  destruct (RoundTrip_response_group_clean _ _ _ _ _ _ _ _ _ Hg')
    as [Hclean' Hempty].
  exists t, res, err, g, g'. cbn [slog.record_attrs].
  rewrite (record_groups g g' Hclean Hne Hclean').
  split; [reflexivity|]. split; [exact Hd|]. split; [|split; [|split]].
  - destruct g' as [|a g'].
    + destruct (proj1 Hempty eq_refl) as [-> ->]. reflexivity.
    + destruct res, err; try reflexivity.
      discriminate (proj2 Hempty (conj eq_refl eq_refl)).
  - eapply RoundTrip_request_starts, Hg.
  - eapply RoundTrip_request_keys, Hg.
  - eapply RoundTrip_response_keys, Hg'.
Qed.

Lemma record_layout_witness :
  let t := MockRoundTripper (fun _ => (None, Some "mock error")) in
  let st := NewSlogTripper (sample_process t) [CaptureRequestBody; CaptureResponseBody] in
  let r := http_NewRequest "POST" "http://localhost/" (Some "hello") in
  exists rec g g',
    own_records (events (RoundTrip st 7 (Some r))) = [rec]
    /\ slog.record_attrs rec
       = [slog.mkAttr "request" (slog.GroupValue g);
          slog.mkAttr "response" (slog.GroupValue g')]
    /\ attr_keys g = ["started_at"; "method"; "content_length"; "proto"; "url";
                      "body_content"]
    /\ attr_keys g' = ["error"].
Proof.
  intros t st r.
  eexists.
  destruct (record_layout st 7 r _ (or_introl eq_refl))
    as (t' & res & err & g & g' & Ht & Hd & Hattrs & _ & Hg & Hg').
  exists g, g'. split; [reflexivity|].
  vm_compute in Ht. simplify_eq. vm_compute in Hd. simplify_eq.
  split; [exact Hattrs|]. split; [exact Hg | exact Hg'].
Defined.

(** The delegate answers with neither response nor error: the record holds
    the request group and nothing else. *)
Example scenario_nil_response_nil_error :
  let t := MockRoundTripper (fun _ => (None, None)) in
  let st := NewSlogTripper (sample_process t) [] in
  let r := http_NewRequest "GET" "http://localhost" None in
  let o := RoundTrip st 3 (Some r) in
  result o = Return None None
  /\ slog.record_attrs <$> own_records (events o)
     = [[slog.mkAttr "request"
           (slog.GroupValue
              [slog.Time "started_at" 3; slog.String "method" "GET";
               slog.Int64 "content_length" 0; slog.String "proto" "HTTP/1.1";
               slog.String "url" "http://localhost"])]].
Proof. vm_compute. split; reflexivity. Qed.

(** ** Request headers *)

Lemma header_attrs_value (h : gmap string (list string)) (values : http.Header)
    (name : string) :
  is_Some (h !! name) ->
  In (slog.String name (http.Header_Get values name)) (header_attrs h values).
Proof.
  intros [vs Hvs]. unfold header_attrs, http.Header_names.
  rewrite <- list_elem_of_In. apply list_elem_of_fmap. exists name.
  split; [reflexivity|]. apply list_elem_of_fmap. exists (name, vs).
  split; [reflexivity|]. now apply elem_of_map_to_list.
Qed.

(** X10. Request-header capture (lines 137-148): the request group gets a
    [headers] group exactly when the request header has a name, with one
    attribute per name of the header. The value is what [Get] finds under
    the canonical form of the name: the first value of a name stored in
    canonical form, and the empty string for a name stored in another form
    whose canonical form is not in the header. *)
Theorem request_headers_logged (st : SlogTripper) (start : Time) (r : http.Request)
    (h : gmap string (list string)) :
  captureRequestHeaders st = true ->
  http.Header_ r = Some h ->
  request_read_error st (Some r) = None ->
  let headers := header_attrs h (Some h) in
  (exists g,
     RoundTrip_request st start (Some r)
     = inr (g ++ (if bool_decide (h = ∅) then [] else [slog.Group "headers" headers]),
            Some r, EvClose <$> request_body_read st (Some r))
     /\ ~ In "headers" (attr_keys g))
  /\ (forall name, In name (attr_keys headers) <-> is_Some (h !! name))
  /\ (forall name v vs,
        h !! name = Some (v :: vs) ->
        textproto.CanonicalMIMEHeaderKey name = name ->
        In (slog.String name v) headers)
  /\ (forall name vs,
        h !! name = Some vs ->
        h !! textproto.CanonicalMIMEHeaderKey name = None ->
        In (slog.String name "") headers).
Proof.
  intros Hcap Hh Hreq headers. split; [|split; [|split]].
  - revert Hreq. unfold RoundTrip_request, request_read_error, request_body_read.
    rewrite Hcap.
    destruct (captureRequestBody st), (http.Body r) as [rc|] eqn:Hbody;
      cbn -[header_attrs]; intros Hok;
      try (rewrite Hok, (fresh_reader_same rc Hok),
             (Request_set_Body_same r rc Hbody));
      rewrite Hh, header_attrs_empty; fold headers;
      destruct (bool_decide (h = ∅)), (http.URL r);
      eexists; (split; [rewrite ?app_nil_r; reflexivity|]);
      cbn; intuition congruence.
  - intros name. apply header_attrs_names.
  - intros name v vs Hname Hcanon.
    replace v with (http.Header_Get (Some h) name).
    + apply header_attrs_value. eauto.
    + unfold http.Header_Get. now rewrite Hcanon, Hname.
  - intros name vs Hname Hcanon.
    replace "" with (http.Header_Get (Some h) name).
    + apply header_attrs_value. eauto.
    + unfold http.Header_Get. now rewrite Hcanon.
Qed.

Lemma request_headers_logged_witness :
  let t := MockRoundTripper (fun _ => (Some (sample_response None None), None)) in
  let st := NewSlogTripper (sample_process t) [CaptureRequestHeaders] in
  let h : gmap string (list string) :=
    {[ "example" := ["value"]; "Accept" := ["text/html"; "text/plain"] ]} in
  let r := http.mkRequest "" (Some "http://localhst") "" (Some h) None 0 None in
  In (slog.String "example" "") (header_attrs h (Some h))
  /\ In (slog.String "Accept" "text/html") (header_attrs h (Some h)).
Proof.
  intros t st h r.
  destruct (request_headers_logged st 0 r h eq_refl eq_refl eq_refl)
    as (_ & _ & Hcanon & Hother).
  split.
  - apply (Hother "example" ["value"]); reflexivity.
  - apply (Hcanon "Accept" "text/html" ["text/plain"]); reflexivity.
Defined.

(** ** After [Init] *)

(** A tripper without logger, at a level [log] has a case for and with the
    captures off never returns: where its delegate returns, its log step
    panics. *)
Lemma bare_tripper_never_returns (st : SlogTripper) (now : Time)
    (req : option http.Request) (res : option http.Response) (err : option error) :
  capture_nothing st = true ->
  logger st = None ->
  logAtLevel st = slog.LevelDebug \/ logAtLevel st = slog.LevelInfo ->
  result (RoundTrip st now req) <> Return res err.
Proof.
  intros Hflags Hl Hlevel H.
  destruct (RoundTrip_returns_delegate_result st now req res err Hflags H)
    as (t & Ht & Hd & Hreq).
  destruct req as [r|]; [|congruence].
  rewrite (nil_logger_panics st t now r res err Hflags Ht Hl Hlevel Hd) in H.
  discriminate.
Qed.

(** X11. Once [Init] has run, a tripper that delegates to the process-wide
    default transport (as [NewSlogTripper()] does, and every tripper built
    without a transport of its own) cannot complete a round trip: the call
    reaches the installed tripper, which panics, so the call panics too and
    emits no record. It returns only where it does not reach the delegate,
    on a failed read of the request body. *)
Theorem trippers_on_installed_default_panic (p : Process) (st : SlogTripper)
    (now : Time) (req : option http.Request) :
  m_done p = false ->
  proxyTransport st = DefaultTransport (Init p) ->
  request_read_error st req = None ->
  (exists pn, result (RoundTrip st now req) = Panicked pn)
  /\ own_records (events (RoundTrip st now req)) = [].
Proof.
  intros Hm Ht Hreq. revert Ht. unfold Init. rewrite Hm. cbn [DefaultTransport].
  set (bare := mkSlogTripper None 0 _ false false false false). intros Ht.
  assert (Hbare : forall res err,
             result (RoundTripper_RoundTrip (Tripper bare) now req) <> Return res err).
  { intros res err. apply (bare_tripper_never_returns bare now req res err);
      [reflexivity | reflexivity | now right]. }
  split.
  - destruct (result (RoundTripper_RoundTrip (Tripper bare) now req))
      as [res err|pn] eqn:Hd; [now destruct (Hbare res err)|].
    exists pn. now apply (delegate_panic_propagates st (Tripper bare)).
  - destruct (RoundTrip_events_full st (Tripper bare) now req Ht Hreq)
      as (bodies & logged & -> & _ & Hl).
    rewrite !own_records_app, !(proj1 (closes_only _)). cbn.
    destruct Hl as [-> | (rec & r' & res & err & g & g' & res' & evs & evs'
                          & _ & _ & Hd & _)]; [reflexivity|].
    now destruct (Hbare res err).
Qed.

Lemma trippers_on_installed_default_panic_witness :
  let t := MockRoundTripper (fun _ => (Some (sample_response None None), None)) in
  let p := sample_process t in
  let st := NewSlogTripper (Init p) [WithLogger (Some verbose_logger)] in
  let req := Some (http_NewRequest "GET" "http://localhost" None) in
  (exists pn, result (RoundTrip st 0 req) = Panicked pn)
  /\ own_records (events (RoundTrip st 0 req)) = [].
Proof.
  intros t p st req.
  apply (trippers_on_installed_default_panic p st 0 req); reflexivity.
Defined.

(** ** A failed read *)

(** X12. A failed read of the request body is not undone: [RoundTrip]
    returns without putting back the bytes it had read and without closing
    the body, so the request object is left with the body at the point of
    the failure. *)
Theorem failed_request_read_is_not_undone (st : SlogTripper) (now : Time)
    (r : http.Request) (rc : ReadCloser) (e : error) :
  captureRequestBody st = true ->
  http.Body r = Some rc ->
  failure rc = Some e ->
  let o := RoundTrip st now (Some r) in
  read_request_body o = Some ("", Some e)
  /\ closed_bodies (events o) = []
  /\ request_after o = Some (http.Request_set_Body r (Some (snd (ReadFrom rc)))).
Proof.
  intros Hcap Hbody Hfail o. subst o.
  rewrite RoundTrip_unfold. unfold RoundTrip_body, RoundTrip_request, read_request_body.
  rewrite Hcap, Hbody. cbn. rewrite Hfail. cbn. auto.
Qed.

Lemma failed_request_read_is_not_undone_witness :
  let t := MockRoundTripper (fun _ => (None, None)) in
  let st := NewSlogTripper (sample_process t) [CaptureRequestBody] in
  let rc := {| pending := "partial"; failure := Some "reset" |} in
  let r := http.mkRequest "POST" None "" None (Some rc) 0 None in
  read_request_body (RoundTrip st 0 (Some r)) = Some ("", Some "reset").
Proof.
  intros t st rc r.
  apply (failed_request_read_is_not_undone st 0 r rc "reset"); reflexivity.
Defined.

(** ** A nil request, in general *)

(** X13. A nil request is not stopped at the door: [RoundTrip] hands it to
    the delegate, once, and only afterwards fails on it. When the delegate
    returns and no response-body read fails, the call panics on a nil
    dereference ([req.Header] in the response-header loop or
    [req.Context()]); in no case is a record emitted or a response
    returned. *)
Theorem nil_request_reaches_delegate (st : SlogTripper) (t : RoundTripper)
    (now : Time) :
  proxyTransport st = Some t ->
  let d := RoundTripper_RoundTrip t now None in
  let o := RoundTrip st now None in
  delegate_calls (events o) = [None]
  /\ own_records (events o) = []
  /\ (forall rs err, result o <> Return (Some rs) err)
  /\ (forall res err,
        result d = Return res err -> returned_read_error st res = None ->
        exists what, result o = Panicked (NilDereference what)).
Proof.
  intros Ht d o. subst o.
  split; [apply (RoundTrip_calls_delegate_once st t now None Ht eq_refl)|].
  split; [apply nil_request_never_logs|].
  split.
  - intros rs err H. apply nil_request_never_logs in H as [H _]. discriminate.
  - intros res err Hd Hres. rewrite RoundTrip_unfold. unfold RoundTrip_body.
    cbn [RoundTrip_request]. rewrite Ht. cbv zeta. fold d. rewrite Hd.
    revert Hres.
    unfold returned_read_error, response_read_error, RoundTrip_response.
    destruct res as [rs|]; [|eauto].
    destruct (if captureResponseBody st then http.ResponseBody rs else None) as [rc|].
    + cbn. intros ->. repeat case_match; simplify_eq; cbn; eauto.
    + intros _. repeat case_match; simplify_eq; cbn; eauto.
Qed.

Lemma nil_request_reaches_delegate_witness :
  let rs := sample_response (Some {[ "Content-Type" := ["text/plain"] ]}) None in
  let t := MockRoundTripper (fun _ => (Some rs, None)) in
  let st := NewSlogTripper (sample_process t) [CaptureResponseHeaders] in
  delegate_calls (events (RoundTrip st 0 None)) = [None]
  /\ own_records (events (RoundTrip st 0 None)) = []
  /\ exists what, result (RoundTrip st 0 None) = Panicked (NilDereference what).
Proof.
  intros rs t st.
  destruct (nil_request_reaches_delegate st t 0 eq_refl) as (Hc & Hr & _ & Hp).
  split; [exact Hc|]. split; [exact Hr|].
  apply (Hp (Some rs) None); reflexivity.
Defined.
